(** * Secret creation over HTTP: a model of [pkg/cmd/secret/create/http.go]

    The development follows the Go file function by function.  Go values
    are modelled as the code has them: strings as byte strings, [[]byte]
    as a slice with a length and a capacity over a backing array, the
    GraphQL result as a finite map from alias to a nullable pointer, and
    the API client as a stateful collaborator whose calls are logged.
    Run-time panics (slice bounds, index out of range, nil dereference)
    are outcomes of their own, distinct from returned [error] values. *)

From Stdlib Require Import ZArith NArith Lia.
From Stdlib.Strings Require Import Ascii String Byte.
From stdpp Require Import base tactics option list gmap strings pretty.

Local Open Scope string_scope.
Local Open Scope list_scope.
Local Open Scope nat_scope.

(** ** Go run-time outcomes *)

Inductive panic :=
| SliceBoundsOutOfRange (hi cap : nat)
| IndexOutOfRange (i len : nat)
| NilPointerDereference.

Inductive outcome (A : Type) :=
| Done (a : A)
| Panic (p : panic).
Arguments Done {A} a.
Arguments Panic {A} p.

Definition outcome_bind {A B} (m : outcome A) (k : A → outcome B) : outcome B :=
  match m with
  | Done a => k a
  | Panic p => Panic p
  end.

#[global] Instance outcome_ret : MRet outcome := @Done.
#[global] Instance outcome_mbind : MBind outcome :=
  λ A B k m, outcome_bind m k.

(** ** Characters and small string helpers *)

Definition nl : ascii := ascii_of_nat 10.
Definition cr : ascii := ascii_of_nat 13.
Definition tab : ascii := ascii_of_nat 9.
Definition dquote : ascii := ascii_of_nat 34.
Definition backslash : ascii := ascii_of_nat 92.
Definition padChar : ascii := ascii_of_nat 61.

Definition str1 (c : ascii) : string := String c EmptyString.

Fixpoint chars (s : string) : list ascii :=
  match s with
  | EmptyString => []
  | String c r => c :: chars r
  end.

(** [strings.Join]. *)
Fixpoint strings_Join (l : list string) (sep : string) : string :=
  match l with
  | [] => EmptyString
  | [x] => x
  | x :: r => x +:+ sep +:+ strings_Join r sep
  end.

(** ** Go slices

    A slice is a window on a backing array: [elems] are the [len]
    visible elements, [spare] the elements of the backing array between
    [len] and [cap]. *)

Record slice (A : Type) := Slice { elems : list A; spare : list A }.
Arguments Slice {A} elems spare.
Arguments elems {A} s.
Arguments spare {A} s.

Definition len {A} (s : slice A) : nat := length (elems s).
Definition cap {A} (s : slice A) : nat := length (elems s) + length (spare s).

(** [s[0:hi]]: for a slice the upper bound is checked against the
    capacity, not the length. *)
Definition slice_to {A} (s : slice A) (hi : nat) : outcome (slice A) :=
  if decide (hi ≤ cap s)
  then Done (Slice (take hi (elems s ++ spare s)) (drop hi (elems s ++ spare s)))
  else Panic (SliceBoundsOutOfRange hi (cap s)).

(** [copy(dst, src)] on a destination array given by its contents:
    the first [min (len dst) (len src)] elements are overwritten. *)
Definition copy {A} (dst : list A) (src : slice A) : list A :=
  let n := length dst `min` len src in
  take n (elems src) ++ drop n dst.

(** ** Errors

    [api_error] are the error values made by the API client:
    [*api.GraphQLErrorResponse] carries the structured error list, and
    every value carries as [text] what its [Error] method returns. *)

Record GraphQLError := mkGraphQLError {
  Type_ : string;
  Path : list string;
  Message : string
}.

Inductive api_error :=
| GraphQLErrorResponse (Errors : list GraphQLError) (text : string)
| OtherClientError (text : string).

(** [errorString] and [wrapError] are what [fmt.Errorf] returns without
    and with a [%w] verb; [msg] is the formatted text. *)
Inductive error :=
| ClientError (e : api_error)
| CorruptInputError (offset : nat)
| errorString (msg : string)
| wrapError (msg : string) (err : error).

Definition api_error_string (e : api_error) : string :=
  match e with
  | GraphQLErrorResponse _ text => text
  | OtherClientError text => text
  end.

(** [err.Error()]. *)
Definition Error_string (e : error) : string :=
  match e with
  | ClientError a => api_error_string a
  | CorruptInputError off =>
      "illegal base64 data at input byte " +:+ pretty (N.of_nat off)
  | errorString msg => msg
  | wrapError msg _ => msg
  end.

(** [errors.Unwrap] on the errors this file builds: an error made by
    [fmt.Errorf] with [%w] gives the error it wraps, one made without it
    gives none.  What an error value of the client wraps, if anything,
    is decided by the client's packages and is not modelled: no
    statement below reads [Unwrap] on a [ClientError]. *)
Definition Unwrap (e : error) : option error :=
  match e with
  | wrapError _ w => Some w
  | _ => None
  end.

(** ** [encoding/base64]: [StdEncoding.DecodeString] *)

Definition decodeMap (c : ascii) : option N :=
  let n := N_of_ascii c in
  if decide (65 ≤ n ≤ 90)%N then Some (n - 65)%N
  else if decide (97 ≤ n ≤ 122)%N then Some (n - 71)%N
  else if decide (48 ≤ n ≤ 57)%N then Some (n + 4)%N
  else if decide (n = 43)%N then Some 62%N
  else if decide (n = 47)%N then Some 63%N
  else None.

Definition is_newline (c : ascii) : bool :=
  bool_decide (c = nl) || bool_decide (c = cr).

Fixpoint skip_newlines (src : list ascii) (si : nat) : list ascii * nat :=
  match src with
  | c :: rest => if is_newline c then skip_newlines rest (S si) else (src, si)
  | [] => ([], si)
  end.

Definition byte_of_N (n : N) : byte := byte_of_ascii (ascii_of_N (n mod 256)).

(** The last step of [decodeQuantum]: [dlen] sextets give [dlen - 1]
    bytes. *)
Definition quantum_bytes (q : list N) : list byte :=
  let d := λ i, nth i q 0%N in
  let val := N.lor (N.lor (N.lor (N.shiftl (d 0) 18) (N.shiftl (d 1) 12))
                            (N.shiftl (d 2) 6)) (d 3) in
  take (length q - 1)
       [byte_of_N (N.shiftr val 16); byte_of_N (N.shiftr val 8); byte_of_N val].

(** After the padding of the last quantum: only newlines may follow. *)
Definition decode_finish (rest : list ascii) (si : nat) (q : list N)
    (out : list byte) : list byte * option error :=
  let '(rest', si') := skip_newlines rest si in
  match rest' with
  | [] => (out ++ quantum_bytes q, None)
  | _ :: _ => (out ++ quantum_bytes q, Some (CorruptInputError si'))
  end.

(** [Encoding.Decode] for the padded, non-strict standard encoding, read
    byte by byte: [si] is the index of the next source byte, [q] the
    sextets of the current quantum, [out] the bytes written so far. *)
Fixpoint decode_go (src : list ascii) (si : nat) (q : list N)
    (out : list byte) : list byte * option error :=
  match src with
  | [] =>
      match q with
      | [] => (out, None)
      | _ :: _ => (out, Some (CorruptInputError (si - length q)))
      end
  | c :: rest =>
      let si := S si in
      match decodeMap c with
      | Some v =>
          let q' := q ++ [v] in
          if decide (length q' = 4)
          then decode_go rest si [] (out ++ quantum_bytes q')
          else decode_go rest si q' out
      | None =>
          if is_newline c then decode_go rest si q out
          else if negb (bool_decide (c = padChar))
          then (out, Some (CorruptInputError (si - 1)))
          else
            match length q with
            | 0 | 1 => (out, Some (CorruptInputError (si - 1)))
            | 2 =>
                let '(rest', si') := skip_newlines rest si in
                match rest' with
                | [] => (out, Some (CorruptInputError si'))
                | c' :: rest'' =>
                    if bool_decide (c' = padChar)
                    then decode_finish rest'' (S si') q out
                    else (out, Some (CorruptInputError (si' - 1)))
                end
            | _ => decode_finish rest si q out
            end
      end
  end.

(** [DecodedLen] for a padded encoding. *)
Definition DecodedLen (n : nat) : nat := n / 4 * 3.

(** [DecodeString]: the buffer is [make([]byte, DecodedLen(len(s)))],
    zero-filled, and the result is its prefix [dbuf[:n]]. *)
Definition DecodeString (s : string) : slice byte * option error :=
  let '(out, err) := decode_go (chars s) 0 [] [] in
  (Slice out (replicate (DecodedLen (String.length s) - length out) x00), err).

(** ** [PubKey] *)

Record PubKey := mkPubKey {
  Key : list byte;
  ID : string;
  encoded : string
}.

Definition PubKey_String (pk : PubKey) : string := encoded pk.

Definition NewPubKey (encodedKey keyID : string) : outcome (PubKey + error) :=
  let '(pk, err) := DecodeString encodedKey in
  match err with
  | Some e =>
      Done (inr (wrapError ("failed to decode public key: " +:+ Error_string e) e))
  | None =>
      let pka := replicate 32 x00 in
      src ← slice_to pk 32;
      let pka := copy pka src in
      Done (inl {| Key := pka; ID := keyID; encoded := encodedKey |})
  end.

(** ** [fmt] and [strconv] helpers *)

Definition hex_digit (n : N) : ascii :=
  nth (N.to_nat n) (chars "0123456789abcdef") zero.

(** [strconv.Quote], which renders the [%q] verb.  Bytes of the ASCII
    range follow the Go function.  Bytes from 0x80 on are kept as they
    are, which is what Go does for printable runes in valid UTF-8; Go
    writes invalid UTF-8 as hex escapes and non-printable runes as
    unicode escapes, which needs its Unicode tables and is not modelled:
    for such names only the literal text of the query differs. *)
Definition quote_char (c : ascii) : string :=
  let n := N_of_ascii c in
  if decide (c = dquote ∨ c = backslash) then String backslash (str1 c)
  else if decide (32 ≤ n ≤ 126 ∨ 128 ≤ n)%N then str1 c
  else if decide (n = 7)%N then String backslash "a"
  else if decide (n = 8)%N then String backslash "b"
  else if decide (n = 12)%N then String backslash "f"
  else if decide (n = 10)%N then String backslash "n"
  else if decide (n = 13)%N then String backslash "r"
  else if decide (n = 9)%N then String backslash "t"
  else if decide (n = 11)%N then String backslash "v"
  else String backslash
         (String "x" (String (hex_digit (n / 16)) (str1 (hex_digit (n mod 16))))).

Fixpoint quote_body (s : string) : string :=
  match s with
  | EmptyString => EmptyString
  | String c r => quote_char c +:+ quote_body r
  end.

Definition strconv_Quote (s : string) : string :=
  str1 dquote +:+ quote_body s +:+ str1 dquote.

(** A line break followed by [n] tabs, as in the raw string literal. *)
Fixpoint tabs (n : nat) : string :=
  match n with
  | 0 => EmptyString
  | S k => String tab (tabs k)
  end.

Definition indent (n : nat) : string := String nl (tabs n).

(** The [%v] verb on a [[]string]. *)
Definition fmt_v (l : list string) : string :=
  "[" +:+ strings_Join l " " +:+ "]".

(** ** Package [ghrepo]

    A [ghrepo.Interface] value, by the two things this file asks of it:
    [ghrepo.FullName(repo)] and [repo.RepoHost()]. *)

Record repo := mkRepo {
  FullName : string;
  RepoHost : string
}.

(** ** The wire format

    [json.Marshal] on a [SecretPayload] writes an object whose members
    are strings and one array of integers; the object is kept as the
    ordered list of its members. *)

Inductive json_value :=
| JString (s : string)
| JIntArray (l : list Z).

Abbreviation json_object := (list (string * json_value)).

Definition has_field (name : string) (o : json_object) : Prop := name ∈ o.*1.

Fixpoint get_field (name : string) (o : json_object) : option json_value :=
  match o with
  | [] => None
  | (k, v) :: r => if decide (k = name) then Some v else get_field name r
  end.

(** ** The API client

    [client.REST] and [client.GraphQL] talk to a remote service: they
    take the state of the world and return a new one.  [REST] yields
    what it stored in its [data] argument, which is the key record of
    [getPubKey] (ignored when [data] is [nil]), and [GraphQL] yields the
    map it decoded into: alias to pointer, [None] being a [nil]
    pointer. *)

Record pubKeyResult := mkPubKeyResult {
  result_Key : string;
  result_ID : string
}.

Record repoNode := mkRepoNode { DatabaseID : Z }.

Record Client := mkClient {
  world : Type;
  REST : world → string → string → string → option json_object →
         world * (pubKeyResult * option api_error);
  GraphQL : world → string → string →
            world * (gmap string (option repoNode) * option api_error)
}.

Inductive event :=
| EvREST (host method path : string) (body : option json_object)
| EvGraphQL (host query : string).

Definition is_PUT (e : event) : Prop :=
  match e with
  | EvREST _ method _ _ => method = "PUT"
  | EvGraphQL _ _ => False
  end.

(** [CreateOptions] of [create.go], with the fields this file reads. *)
Record CreateOptions := mkCreateOptions {
  SecretName : string;
  OrgName : string;
  Visibility_opt : string;
  RepositoryNames : list string
}.

(** Modelled from the spec: the constant [visSelected] is declared in
    [create.go]; the visibility that names an explicit subset of
    repositories is "selected". *)
Definition visSelected : string := "selected".

Record SecretPayload := mkSecretPayload {
  EncryptedValue : string;
  Visibility : string;
  Repositories : list Z;
  KeyID : string
}.

(** [json.Marshal] following the struct tags: [omitempty] drops an empty
    string and a slice of length zero.  No value of this type makes it
    fail.  String members are kept byte for byte, which is what
    [encoding/json] does for valid UTF-8; Go writes every byte that is
    not valid UTF-8 as U+FFFD, which is not modelled, so the statements
    below speak of which members a body has and of the strings the
    functions pass on, not of how a string that is not UTF-8 is
    rendered. *)
Definition json_Marshal (p : SecretPayload) : json_object * option error :=
  ([("encrypted_value", JString (EncryptedValue p))]
   ++ (if decide (Visibility p = EmptyString) then []
       else [("visibility", JString (Visibility p))])
   ++ (if decide (length (Repositories p) = 0) then []
       else [("selected_repository_ids", JIntArray (Repositories p))])
   ++ [("key_id", JString (KeyID p))],
   None).

Section WithClient.

Context (C : Client).

Record state := mkState { st_world : world C; st_log : list event }.

(** Functions that call the client: a state monad over [state] whose
    result may be a panic. *)
Definition M (A : Type) : Type := state → outcome A * state.

Definition M_ret {A} (a : A) : M A := λ s, (Done a, s).

Definition M_bind {A B} (m : M A) (k : A → M B) : M B :=
  λ s, match m s with
       | (Done a, s') => k a s'
       | (Panic p, s') => (Panic p, s')
       end.

Definition lift {A} (o : outcome A) : M A := λ s, (o, s).

#[global] Instance M_mret : MRet M := @M_ret.
#[global] Instance M_mbind : MBind M := λ A B k m, M_bind m k.

Definition client_REST (host method path : string) (body : option json_object)
    : M (pubKeyResult * option api_error) :=
  λ s, let '(w, r) := REST C (st_world s) host method path body in
       (Done r, {| st_world := w;
                   st_log := st_log s ++ [EvREST host method path body] |}).

Definition client_GraphQL (host query : string)
    : M (gmap string (option repoNode) * option api_error) :=
  λ s, let '(w, r) := GraphQL C (st_world s) host query in
       (Done r, {| st_world := w; st_log := st_log s ++ [EvGraphQL host query] |}).

(** *** Public keys *)

Definition getPubKey (host path : string) : M (PubKey + error) :=
  '(result, err) ← client_REST host "GET" path None;
  match err with
  | Some e => mret (inr (ClientError e))
  | None =>
      if decide (result_Key result = EmptyString)
      then mret (inr (errorString
                        ("failed to find public key at " +:+ host +:+ "/" +:+ path)))
      else lift (NewPubKey (result_Key result) (result_ID result))
  end.

Definition getOrgPublicKey (host orgName : string) : M (PubKey + error) :=
  getPubKey host ("orgs/" +:+ orgName +:+ "/actions/secrets/public-key").

Definition getRepoPubKey (r : repo) : M (PubKey + error) :=
  getPubKey (RepoHost r)
            ("repos/" +:+ FullName r +:+ "/actions/secrets/public-key").

(** *** Writing a secret *)

Definition putSecret (host path : string) (payload : SecretPayload)
    : M (option error) :=
  let '(payloadBytes, err) := json_Marshal payload in
  match err with
  | Some e => mret (Some (wrapError ("failed to serialize: " +:+ Error_string e) e))
  | None =>
      '(_, rerr) ← client_REST host "PUT" path (Some payloadBytes);
      mret (ClientError <$> rerr)
  end.

(** *** Repository names to identifiers *)

Definition repo_query (orgName repoName : string) : string :=
  indent 3 +:+ repoName +:+ ": repository(owner: " +:+ strconv_Quote orgName
  +:+ ", name :" +:+ strconv_Quote repoName +:+ ") {"
  +:+ indent 4 +:+ "databaseId"
  +:+ indent 3 +:+ "}"
  +:+ indent 2.

(** The scan of [gqlErr.Errors]: [None] when the loop ends without a
    return. *)
Fixpoint scan_errors (orgName : string) (errs : list GraphQLError)
    : option (outcome error) :=
  match errs with
  | [] => None
  | ge :: rest =>
      if decide (Type_ ge = "NOT_FOUND")
      then Some (match Path ge with
                 | [] => Panic (IndexOutOfRange 0 0)
                 | p0 :: _ =>
                     Done (errorString ("could not find " +:+ orgName +:+ "/" +:+ p0))
                 end)
      else scan_errors orgName rest
  end.

(** The final loop: [graphqlResult[repoName]] is the zero value, a nil
    pointer, for a missing key, and [.DatabaseID] dereferences it. *)
Fixpoint collect_ids (graphqlResult : gmap string (option repoNode))
    (repositoryNames : list string) (result : list Z) : outcome (list Z) :=
  match repositoryNames with
  | [] => Done result
  | repoName :: rest =>
      match default None (graphqlResult !! repoName) with
      | Some node => collect_ids graphqlResult rest (result ++ [DatabaseID node])
      | None => Panic NilPointerDereference
      end
  end.

Definition build_query (orgName : string) (repositoryNames : list string) : string :=
  let queries := repo_query orgName <$> repositoryNames in
  "query MapRepositoryNames { " +:+ strings_Join queries EmptyString +:+ " }".

Definition mapRepoNameToID (host orgName : string) (repositoryNames : list string)
    : M (list Z + error) :=
  let query := build_query orgName repositoryNames in
  '(graphqlResult, err) ← client_GraphQL host query;
  match (match err with
         | Some (GraphQLErrorResponse errs _) => scan_errors orgName errs
         | _ => None
         end) with
  | Some found => e ← lift found; mret (inr e)
  | None =>
      match err with
      | Some e =>
          mret (inr (wrapError ("failed to look up repositories: "
                                +:+ api_error_string e) (ClientError e)))
      | None =>
          result ← lift (collect_ids graphqlResult repositoryNames []);
          mret (inl result)
      end
  end.

(** *** Organization and repository secrets *)

Definition putOrgSecret (pk : PubKey) (host : string) (opts : CreateOptions)
    (eValue : string) : M (option error) :=
  let secretName := SecretName opts in
  let orgName := OrgName opts in
  let visibility := Visibility_opt opts in
  let finish (repositoryIDs : list Z) : M (option error) :=
    let payload := {| EncryptedValue := eValue; KeyID := ID pk;
                      Repositories := repositoryIDs; Visibility := visibility |} in
    let path := "orgs/" +:+ orgName +:+ "/actions/secrets/" +:+ secretName in
    putSecret host path payload in
  if decide (orgName ≠ EmptyString ∧ visibility = visSelected)
  then
    r ← mapRepoNameToID host orgName (RepositoryNames opts);
    match r with
    | inr err =>
        mret (Some (wrapError ("failed to look up IDs for repositories "
                               +:+ fmt_v (RepositoryNames opts) +:+ ": "
                               +:+ Error_string err) err))
    | inl repositoryIDs => finish repositoryIDs
    end
  else finish [].

Definition putRepoSecret (pk : PubKey) (r : repo) (secretName eValue : string)
    : M (option error) :=
  let payload := {| EncryptedValue := eValue; KeyID := ID pk;
                    Repositories := []; Visibility := EmptyString |} in
  let path := "repos/" +:+ FullName r +:+ "/actions/secrets/" +:+ secretName in
  putSecret (RepoHost r) path payload.

End WithClient.

Arguments mkState {C} st_world st_log.
Arguments st_world {C} s.
Arguments st_log {C} s.

(** ** Concrete clients *)

(** A client that answers every call of a kind in the same way. *)
Definition fixed_client (key : pubKeyResult * option api_error)
    (put : option api_error)
    (gql : gmap string (option repoNode) * option api_error) : Client :=
  {| world := unit;
     REST := λ w host method path body,
       (w, if decide (method = "GET") then key
           else (mkPubKeyResult EmptyString EmptyString, put));
     GraphQL := λ w host query, (w, gql) |}.

(** Modelled from the spec: the remote secret store behind [client.REST]
    is not part of this package.  Following the description of the
    write, a put is an upsert: the secret at the path is created, or
    replaced when it exists, and the call reports no error.  The store
    maps host and path to the body last written. *)
Definition store_client : Client :=
  {| world := gmap (string * string) json_object;
     REST := λ w host method path body,
       if decide (method = "PUT")
       then (match body with
             | Some b => <[(host, path) := b]> w
             | None => w
             end, (mkPubKeyResult EmptyString EmptyString, None))
       else (w, (mkPubKeyResult EmptyString EmptyString, None));
     GraphQL := λ w host query, (w, (∅, None)) |}.

(** The transport contract of an idempotent put: repeating a request
    right after it was served gives the same answer and leaves the
    remote state as it is. *)
Definition idempotent_PUT (C : Client) : Prop :=
  ∀ w host path body w1 r1,
    REST C w host "PUT" path body = (w1, r1) →
    ∃ r2, REST C w1 host "PUT" path body = (w1, r2) ∧ r2.2 = r1.2.

(** ** Notions used in the statements *)

Definition valid_base64 (s : string) : Prop := (DecodeString s).2 = None.

Definition decoded (s : string) : list byte := elems (DecodeString s).1.

Definition org_path (opts : CreateOptions) : string :=
  "orgs/" +:+ OrgName opts +:+ "/actions/secrets/" +:+ SecretName opts.

Definition org_payload (pk : PubKey) (opts : CreateOptions) (eValue : string)
    (ids : list Z) : SecretPayload :=
  {| EncryptedValue := eValue; KeyID := ID pk;
     Repositories := ids; Visibility := Visibility_opt opts |}.


(** ** Sample values for the closed statements *)

Definition start (C : Client) (w : world C) : state C := mkState w [].

Definition pk0 : PubKey :=
  {| Key := replicate 32 x00; ID := "kid";
     encoded := "AAAAAAAAAAAAAAAAAAAAAAAAAAAAAAAAAAAAAAAAAAA=" |}.

Definition key34 : string := "/////////////////////////////////////////////w==".

Definition not_found (name : string) : GraphQLError :=
  {| Type_ := "NOT_FOUND"; Path := [name];
     Message := "Could not resolve to a Repository" |}.

Definition forbidden (name : string) : GraphQLError :=
  {| Type_ := "FORBIDDEN"; Path := [name]; Message := "no access" |}.

Definition no_key : pubKeyResult * option api_error :=
  (mkPubKeyResult EmptyString EmptyString, None).

Definition repos_a : gmap string (option repoNode) :=
  {["a" := Some (mkRepoNode 10)]}.

Definition repos_ab : gmap string (option repoNode) :=
  {["b" := Some (mkRepoNode 20); "a" := Some (mkRepoNode 10)]}.

Definition client_empty_key : Client :=
  fixed_client (mkPubKeyResult EmptyString "568250167242549743", None) None (∅, None).

Definition client_get_fails : Client :=
  fixed_client (mkPubKeyResult "a2V5" "1", Some (OtherClientError "HTTP 404"))
               None (∅, None).

Definition client_not_found : Client :=
  fixed_client no_key None
    (repos_a, Some (GraphQLErrorResponse
                      [forbidden "a"; not_found "b"; not_found "c"]
                      "GraphQL error: no access")).

Definition client_resolves : Client := fixed_client no_key None (repos_ab, None).

Definition client_partial : Client := fixed_client no_key None (repos_a, None).

Definition client_plain : Client := fixed_client no_key None (∅, None).

Definition opts_selected : CreateOptions :=
  {| SecretName := "TOKEN"; OrgName := "acme";
     Visibility_opt := "selected"; RepositoryNames := ["a"; "b"] |}.

Definition opts_no_org : CreateOptions :=
  {| SecretName := "TOKEN"; OrgName := EmptyString;
     Visibility_opt := "selected"; RepositoryNames := ["a"] |}.

Definition opts_no_visibility : CreateOptions :=
  {| SecretName := "TOKEN"; OrgName := "acme";
     Visibility_opt := EmptyString; RepositoryNames := [] |}.

Definition key_path : string := "orgs/acme/actions/secrets/public-key".

Definition secret_path : string := "orgs/acme/actions/secrets/TOKEN".

Definition payload_all : SecretPayload :=
  {| EncryptedValue := "c2VjcmV0"; Visibility := "all";
     Repositories := []; KeyID := "kid" |}.

Definition body_selected : json_object :=
  [("encrypted_value", JString "c2VjcmV0");
   ("visibility", JString "selected");
   ("selected_repository_ids", JIntArray [10; 20]%Z);
   ("key_id", JString "kid")].

(** Further sample values. *)

Fixpoint line_breaks (n : nat) : string :=
  match n with
  | 0 => EmptyString
  | S k => String nl (line_breaks k)
  end.

Definition short_key_with_breaks : string := "aGk=" +:+ line_breaks 40.

Definition pk1 : PubKey :=
  {| Key := replicate 32 xff; ID := "kid"; encoded := key34 |}.

Definition repo0 : repo := {| FullName := "acme/widgets"; RepoHost := "github.com" |}.

Definition not_found_no_path : GraphQLError :=
  {| Type_ := "NOT_FOUND"; Path := []; Message := "Could not resolve" |}.

Definition client_short_key : Client :=
  fixed_client (mkPubKeyResult "aGk=" "kid", None) None (∅, None).

Definition client_bad_key : Client :=
  fixed_client (mkPubKeyResult "a!==" "kid", None) None (∅, None).

Definition client_good_key : Client :=
  fixed_client (mkPubKeyResult key34 "kid", None) None (∅, None).

Definition client_gql_down : Client :=
  fixed_client no_key None (∅, Some (OtherClientError "connection refused")).

Definition client_no_path : Client :=
  fixed_client no_key None
    (∅, Some (GraphQLErrorResponse [forbidden "a"; not_found_no_path]
                                   "GraphQL error: no access")).

Definition client_lost_path : Client :=
  fixed_client no_key None
    (repos_a, Some (GraphQLErrorResponse [not_found_no_path]
                                         "GraphQL error: Could not resolve")).

Definition client_put_fails : Client :=
  fixed_client no_key (Some (OtherClientError "HTTP 403")) (repos_ab, None).

Definition opts_all : CreateOptions :=
  {| SecretName := "TOKEN"; OrgName := "acme";
     Visibility_opt := "all"; RepositoryNames := ["a"; "b"] |}.

Definition opts_selected_none : CreateOptions :=
  {| SecretName := "TOKEN"; OrgName := "acme";
     Visibility_opt := "selected"; RepositoryNames := [] |}.

(** * Properties *)

(** ** The base64 decoder and its buffer *)

Lemma chars_length s : length (chars s) = String.length s.
Proof. induction s as [|c s IH]; simpl; congruence. Qed.

Lemma skip_newlines_length src si rest si' :
  skip_newlines src si = (rest, si') → length rest ≤ length src.
Proof.
  revert si. induction src as [|c src IH]; intros si; simpl.
  - intros [= <- _]. simpl. lia.
  - destruct (is_newline c).
    + intros H. apply IH in H. lia.
    + intros [= <- _]. simpl. lia.
Qed.

Lemma quantum_bytes_length q :
  length q ≤ 4 → length (quantum_bytes q) = length q - 1.
Proof.
  intros H. unfold quantum_bytes. rewrite length_take. simpl. lia.
Qed.

Lemma decode_finish_length rest si q out :
  length q ≤ 4 →
  length (decode_finish rest si q out).1 = length out + (length q - 1).
Proof.
  intros H. unfold decode_finish.
  destruct (skip_newlines rest si) as [rest' si'].
  destruct rest'; simpl; rewrite length_app, quantum_bytes_length; lia.
Qed.

#[local] Arguments Nat.div : simpl never.

Lemma div4_mono a b : a ≤ b → a / 4 * 3 ≤ b / 4 * 3.
Proof.
  intros H. apply Nat.mul_le_mono_r, Nat.Div0.div_le_mono, H.
Qed.

Lemma div4_step r : (r + 4) / 4 * 3 = r / 4 * 3 + 3.
Proof.
  replace (r + 4) with (r + 1 * 4) by lia.
  rewrite Nat.div_add by lia. lia.
Qed.

Lemma div4_ge a : 4 ≤ a → 3 ≤ a / 4 * 3.
Proof.
  intros H. replace a with (a - 4 + 4) by lia. rewrite div4_step. lia.
Qed.

(** Every four source bytes give at most three decoded bytes: the
    decoder never writes beyond [DecodedLen]. *)
Lemma decode_go_length src : ∀ si q out,
  length q < 4 →
  length (decode_go src si q out).1 ≤ length out + (length q + length src) / 4 * 3.
Proof.
  induction src as [|c rest IH]; intros si q out Hq.
  - simpl. destruct q; simpl; lia.
  - cbn [decode_go]. destruct (decodeMap c) as [v|].
    + cbv zeta. case_decide as Hl; rewrite length_app in Hl; simpl in Hl.
      * etrans; [apply IH; simpl; lia|].
        rewrite length_app, quantum_bytes_length by (rewrite length_app; simpl; lia).
        rewrite length_app. simpl.
        replace (length q + S (length rest)) with (length rest + 4) by lia.
        rewrite div4_step. lia.
      * etrans; [apply IH; rewrite length_app; simpl; lia|].
        apply Nat.add_le_mono_l, div4_mono. rewrite length_app. simpl. lia.
    + destruct (is_newline c).
      { etrans; [apply IH; lia|].
        apply Nat.add_le_mono_l, div4_mono. simpl. lia. }
      destruct (negb _); [simpl; lia|].
      destruct (length q) as [|[|[|[|n]]]] eqn:Eq; try (simpl; lia).
      * destruct (skip_newlines rest (S si)) as [rest' si'] eqn:Es.
        apply skip_newlines_length in Es.
        destruct rest' as [|c' rest'']; [simpl; lia|].
        case_bool_decide; [|simpl; lia].
        rewrite decode_finish_length by lia. rewrite Eq.
        pose proof (div4_ge (2 + length (c :: rest))) as Hd.
        simpl in *. lia.
      * rewrite decode_finish_length by lia. rewrite Eq.
        pose proof (div4_ge (3 + length (c :: rest))) as Hd.
        simpl in *. lia.
Qed.

(** The capacity of the decoded slice is that of the buffer. *)
Lemma DecodeString_cap s :
  cap (DecodeString s).1 = DecodedLen (String.length s).
Proof.
  unfold DecodeString.
  pose proof (decode_go_length (chars s) 0 [] [] ltac:(simpl; lia)) as H.
  destruct (decode_go (chars s) 0 [] []) as [out err].
  unfold cap. simpl in *. rewrite length_replicate, chars_length in *.
  unfold DecodedLen. lia.
Qed.

(** The bytes of the buffer beyond the decoded ones are zero. *)
Lemma DecodeString_spare s :
  spare (DecodeString s).1
  = replicate (cap (DecodeString s).1 - len (DecodeString s).1) x00.
Proof.
  rewrite DecodeString_cap. unfold DecodeString.
  destruct (decode_go (chars s) 0 [] []) as [out err]. reflexivity.
Qed.

(** ** [NewPubKey] *)

Lemma copy_full_array {A} (dst : list A) (src : slice A) :
  length dst = len src → copy dst src = elems src.
Proof.
  intros H. unfold copy. rewrite H, Nat.min_id. unfold len in *.
  rewrite firstn_all, drop_ge by lia. apply app_nil_r.
Qed.

Lemma take_backing_length {A} (s : slice A) n :
  n ≤ cap s → length (take n (elems s ++ spare s)) = n.
Proof.
  unfold cap. intros H. rewrite length_take, length_app. apply Nat.min_l, H.
Qed.

Lemma slice_to_ok {A} (s : slice A) hi :
  hi ≤ cap s →
  slice_to s hi = Done (Slice (take hi (elems s ++ spare s)) (drop hi (elems s ++ spare s))).
Proof. intros H. unfold slice_to. by rewrite decide_True. Qed.

Lemma slice_to_panic {A} (s : slice A) hi :
  cap s < hi → slice_to s hi = Panic (SliceBoundsOutOfRange hi (cap s)).
Proof. intros H. unfold slice_to. rewrite decide_False; [done | lia]. Qed.

(** What [NewPubKey] does once the string has decoded: the outcome is
    decided by the capacity of the decoded slice. *)
Lemma NewPubKey_decoded encodedKey keyID :
  valid_base64 encodedKey →
  NewPubKey encodedKey keyID =
    if decide (32 ≤ DecodedLen (String.length encodedKey))
    then Done (inl {| Key := take 32 (decoded encodedKey
                                      ++ replicate (32 - length (decoded encodedKey)) x00);
                      ID := keyID; encoded := encodedKey |})
    else Panic (SliceBoundsOutOfRange 32 (DecodedLen (String.length encodedKey))).
Proof.
  unfold valid_base64, decoded, NewPubKey. intros Hv.
  pose proof (DecodeString_cap encodedKey) as Hc.
  pose proof (DecodeString_spare encodedKey) as Hs.
  destruct (DecodeString encodedKey) as [pk err]. simpl in *. subst err.
  rewrite <- Hc. case_decide as Hcap.
  - rewrite slice_to_ok by done. cbn [mbind outcome_mbind outcome_bind].
    rewrite copy_full_array.
    2:{ unfold len. cbn [elems]. by rewrite take_backing_length. }
    cbn [elems]. do 3 f_equal. rewrite Hs. unfold cap, len in *.
    destruct (decide (32 ≤ length (elems pk))) as [Hl|Hl].
    + rewrite !take_app_le by lia. done.
    + rewrite !take_app_ge by lia. f_equal. rewrite !take_replicate. f_equal. lia.
  - rewrite slice_to_panic by lia. done.
Qed.

Lemma NewPubKey_key_length encodedKey keyID pk :
  NewPubKey encodedKey keyID = Done (inl pk) → length (Key pk) = 32.
Proof.
  unfold NewPubKey. destruct (DecodeString encodedKey) as [sl [e|]]; [done|].
  unfold slice_to. case_decide as Hc; [|done].
  cbn [mbind outcome_mbind outcome_bind]. intros [= <-]. cbn [Key].
  rewrite copy_full_array; unfold len; cbn [elems];
    by rewrite take_backing_length.
Qed.

(** X2: with fewer than 32 decoded bytes in a buffer of 32 bytes or more
    (a string of 44 bytes or more: 42 characters and two pad characters,
    say, or a shorter key with line breaks), the key is padded with zero
    bytes. *)
Lemma NewPubKey_padded encodedKey keyID :
  valid_base64 encodedKey →
  length (decoded encodedKey) < 32 →
  32 ≤ DecodedLen (String.length encodedKey) →
  NewPubKey encodedKey keyID =
    Done (inl {| Key := decoded encodedKey
                        ++ replicate (32 - length (decoded encodedKey)) x00;
                 ID := keyID; encoded := encodedKey |}).
Proof.
  intros Hv Hl Hc. rewrite NewPubKey_decoded, decide_True by done.
  do 3 f_equal. rewrite take_ge; [done|].
  rewrite length_app, length_replicate. lia.
Qed.

(** X1: a string of fewer than 44 bytes that decodes without error makes
    [pk[0:32]] panic: the capacity of the buffer is below 32. *)
Lemma NewPubKey_short_panics encodedKey keyID :
  valid_base64 encodedKey →
  String.length encodedKey < 44 →
  NewPubKey encodedKey keyID =
    Panic (SliceBoundsOutOfRange 32 (DecodedLen (String.length encodedKey))).
Proof.
  intros Hv Hl. rewrite NewPubKey_decoded by done.
  rewrite decide_False; [done|]. unfold DecodedLen.
  assert (String.length encodedKey / 4 ≤ 10); [|lia].
  apply Nat.lt_succ_r, Nat.Div0.div_lt_upper_bound. lia.
Qed.

(** C5: for every string that decodes as base64 to at least 32 bytes,
    [NewPubKey] returns a key made of the first 32 decoded bytes, with
    the given identifier and with the input string as its [String()];
    for every string that does not decode, it returns an error that
    wraps the decoder's error, and no key. *)
Theorem NewPubKey_correct (encodedKey keyID : string) :
  (valid_base64 encodedKey → 32 ≤ length (decoded encodedKey) →
   ∃ pk, NewPubKey encodedKey keyID = Done (inl pk)
         ∧ Key pk = take 32 (decoded encodedKey)
         ∧ length (Key pk) = 32
         ∧ ID pk = keyID
         ∧ PubKey_String pk = encodedKey)
  ∧ (∀ e, (DecodeString encodedKey).2 = Some e →
     NewPubKey encodedKey keyID =
       Done (inr (wrapError ("failed to decode public key: " +:+ Error_string e) e))).
Proof.
  split.
  - intros Hv Hl. eexists. split.
    + rewrite NewPubKey_decoded by done. rewrite decide_True; [done|].
      rewrite <- DecodeString_cap. unfold decoded, cap in *. lia.
    + cbn [Key ID encoded PubKey_String]. repeat split.
      * by rewrite take_app_le.
      * rewrite length_take, length_app. lia.
  - intros e He. unfold NewPubKey.
    destruct (DecodeString encodedKey) as [pk err]. simpl in He. by subst err.
Qed.

Lemma NewPubKey_correct_witness :
  (∃ pk, NewPubKey key34 "kid" = Done (inl pk)
         ∧ Key pk = take 32 (decoded key34)
         ∧ length (Key pk) = 32
         ∧ ID pk = "kid"
         ∧ PubKey_String pk = key34)
  ∧ NewPubKey "a!==" "kid" =
      Done (inr (wrapError ("failed to decode public key: "
                            +:+ Error_string (CorruptInputError 1))
                           (CorruptInputError 1))).
Proof.
  split.
  - apply (proj1 (NewPubKey_correct key34 "kid")).
    + vm_compute. reflexivity.
    + vm_compute. lia.
  - apply (proj2 (NewPubKey_correct "a!==" "kid")). vm_compute. reflexivity.
Defined.

(** C3: a key string that decodes to fewer than 32 bytes.  ["AAAA"] is
    valid base64 for three zero bytes; the decoded slice has capacity 3
    and [pk[0:32]] panics, so no [PubKey] is returned. *)
Theorem NewPubKey_short_key :
  DecodeString "AAAA" = (Slice [x00; x00; x00] [], None)
  ∧ NewPubKey "AAAA" "kid" = Panic (SliceBoundsOutOfRange 32 3).
Proof. split; vm_compute; reflexivity. Qed.

(** ** The members of a marshalled payload *)

Ltac fields_solver :=
  unfold has_field, json_Marshal; cbn [fst];
  repeat case_decide; rewrite list_elem_of_In; simpl;
  intuition (try discriminate; try congruence).

Lemma marshal_visibility p :
  has_field "visibility" (json_Marshal p).1 ↔ Visibility p ≠ EmptyString.
Proof. fields_solver. Qed.

Lemma marshal_visibility_value p :
  Visibility p ≠ EmptyString →
  get_field "visibility" (json_Marshal p).1 = Some (JString (Visibility p)).
Proof.
  intros H. unfold json_Marshal. cbn [fst]. by rewrite decide_False.
Qed.

Lemma marshal_repositories p :
  has_field "selected_repository_ids" (json_Marshal p).1 ↔ Repositories p ≠ [].
Proof.
  destruct (Repositories p) eqn:E; fields_solver;
    rewrite E in *; simpl in *; congruence.
Qed.

Lemma marshal_repositories_value p :
  Repositories p ≠ [] →
  get_field "selected_repository_ids" (json_Marshal p).1
    = Some (JIntArray (Repositories p)).
Proof.
  intros H. unfold json_Marshal. cbn [fst].
  destruct (Repositories p) eqn:E; [done|].
  repeat case_decide; simpl in *; done.
Qed.

Lemma marshal_fixed_fields p :
  get_field "encrypted_value" (json_Marshal p).1 = Some (JString (EncryptedValue p))
  ∧ get_field "key_id" (json_Marshal p).1 = Some (JString (KeyID p)).
Proof.
  unfold json_Marshal. cbn [fst]. split; repeat case_decide; reflexivity.
Qed.

(** ** Runs of the client functions *)

Section Runs.

Context (C : Client).

Implicit Types (s : state C) (host path orgName : string).

Ltac unfold_M :=
  unfold mbind, mret, M_mbind, M_mret, M_bind, M_ret, lift,
    client_REST, client_GraphQL.

Lemma getPubKey_unfold host path s :
  getPubKey C host path s =
    let '(w, (result, err)) := REST C (st_world s) host "GET" path None in
    let s' := mkState w (st_log s ++ [EvREST host "GET" path None]) in
    match err with
    | Some e => (Done (inr (ClientError e)), s')
    | None =>
        if decide (result_Key result = EmptyString)
        then (Done (inr (errorString ("failed to find public key at "
                                      +:+ host +:+ "/" +:+ path))), s')
        else (NewPubKey (result_Key result) (result_ID result), s')
    end.
Proof.
  unfold getPubKey. unfold_M.
  destruct (REST C (st_world s) host "GET" path None) as [w [result [e|]]];
    [done|]. by case_decide.
Qed.

Lemma putSecret_unfold host path payload s :
  putSecret C host path payload s =
    let body := Some (json_Marshal payload).1 in
    let '(w, (_, rerr)) := REST C (st_world s) host "PUT" path body in
    (Done (ClientError <$> rerr),
     mkState w (st_log s ++ [EvREST host "PUT" path body])).
Proof.
  unfold putSecret. cbn [json_Marshal fst]. unfold_M.
  by destruct (REST C (st_world s) host "PUT" path _) as [w [result rerr]].
Qed.

Lemma scan_errors_first orgName pre ge post :
  Forall (λ e, Type_ e ≠ "NOT_FOUND") pre →
  Type_ ge = "NOT_FOUND" →
  scan_errors orgName (pre ++ ge :: post) =
    Some (match Path ge with
          | [] => Panic (IndexOutOfRange 0 0)
          | p0 :: _ => Done (errorString ("could not find " +:+ orgName +:+ "/" +:+ p0))
          end).
Proof.
  intros Hpre Hge. induction Hpre as [|e pre He _ IH]; simpl.
  - by rewrite decide_True.
  - by rewrite decide_False.
Qed.

Lemma scan_errors_none orgName errs :
  Forall (λ e, Type_ e ≠ "NOT_FOUND") errs → scan_errors orgName errs = None.
Proof.
  induction 1 as [|e errs He _ IH]; simpl; [done|]. by rewrite decide_False.
Qed.

Lemma mapRepoNameToID_unfold host orgName names s :
  mapRepoNameToID C host orgName names s =
    let query := build_query orgName names in
    let '(w, (graphqlResult, err)) := GraphQL C (st_world s) host query in
    let s' := mkState w (st_log s ++ [EvGraphQL host query]) in
    match err with
    | Some e =>
        match (match e with
               | GraphQLErrorResponse errs _ => scan_errors orgName errs
               | OtherClientError _ => None
               end) with
        | Some (Done nf) => (Done (inr nf), s')
        | Some (Panic p) => (Panic p, s')
        | None => (Done (inr (wrapError ("failed to look up repositories: "
                                         +:+ api_error_string e) (ClientError e))), s')
        end
    | None =>
        match collect_ids graphqlResult names [] with
        | Done result => (Done (inl result), s')
        | Panic p => (Panic p, s')
        end
    end.
Proof.
  unfold mapRepoNameToID. unfold_M. cbv zeta.
  destruct (GraphQL C (st_world s) host _) as [w [graphqlResult [e|]]].
  - destruct e as [errs text|text]; [|done].
    by destruct (scan_errors orgName errs) as [[nf|p]|].
  - by destruct (collect_ids graphqlResult names []).
Qed.

Lemma mapRepoNameToID_log host orgName names s :
  st_log (mapRepoNameToID C host orgName names s).2 =
    st_log s ++ [EvGraphQL host (build_query orgName names)].
Proof.
  rewrite mapRepoNameToID_unfold. cbv zeta.
  destruct (GraphQL C (st_world s) host _) as [w [graphqlResult [e|]]].
  - by destruct (match e with GraphQLErrorResponse errs _ => _ | _ => _ end)
      as [[nf|p]|].
  - by destruct (collect_ids graphqlResult names []).
Qed.

(** The loop over the names: with a pointer for every name, the
    identifiers are appended in the order of the names. *)
Lemma collect_ids_all (data : gmap string (option repoNode)) names :
  ∀ acc,
  (∀ n, n ∈ names → ∃ node, data !! n = Some (Some node)) →
  ∃ ids, collect_ids data names acc = Done (acc ++ ids)
         ∧ Forall2 (λ n id, data !! n = Some (Some (mkRepoNode id))) names ids.
Proof.
  induction names as [|n names IH]; intros acc Hall; simpl.
  - exists []. by rewrite app_nil_r.
  - destruct (Hall n) as [[id] Hn]; [left|]. rewrite Hn. simpl.
    destruct (IH (acc ++ [id])) as (ids & Hids & Hf).
    { intros m Hm. apply Hall. by right. }
    exists (id :: ids). rewrite Hids, <- app_assoc. by split; [|constructor].
Qed.

(** Conversely, when the loop ends it has found a pointer for every
    name. *)
Lemma collect_ids_inv (data : gmap string (option repoNode)) names :
  ∀ acc res,
  collect_ids data names acc = Done res →
  ∃ ids, res = acc ++ ids
         ∧ Forall2 (λ n id, data !! n = Some (Some (mkRepoNode id))) names ids.
Proof.
  induction names as [|n names IH]; intros acc res H; simpl in H.
  - injection H as <-. exists []. by rewrite app_nil_r.
  - destruct (data !! n) as [[[id]|]|] eqn:Hn; simpl in H; try discriminate.
    apply IH in H as (ids & -> & Hf).
    exists (id :: ids). rewrite <- app_assoc. by split; [|constructor].
Qed.

(** A name without a pointer, missing from the map or mapped to [nil],
    stops the loop with a nil dereference. *)
Lemma collect_ids_missing (data : gmap string (option repoNode)) names n :
  ∀ acc,
  n ∈ names → default None (data !! n) = None →
  collect_ids data names acc = Panic NilPointerDereference.
Proof.
  induction names as [|m names IH]; intros acc Hin Hn; [by inversion Hin|].
  simpl. destruct (decide (m = n)) as [->|Hne].
  - by rewrite Hn.
  - destruct (default None (data !! m)); [|done].
    apply IH; [|done]. by inversion Hin; subst.
Qed.

Lemma putOrgSecret_unfold pk host opts eValue s :
  putOrgSecret C pk host opts eValue s =
    if decide (OrgName opts ≠ EmptyString ∧ Visibility_opt opts = visSelected)
    then
      match mapRepoNameToID C host (OrgName opts) (RepositoryNames opts) s with
      | (Done (inl ids), s1) =>
          putSecret C host (org_path opts) (org_payload pk opts eValue ids) s1
      | (Done (inr err), s1) =>
          (Done (Some (wrapError ("failed to look up IDs for repositories "
                                  +:+ fmt_v (RepositoryNames opts) +:+ ": "
                                  +:+ Error_string err) err)), s1)
      | (Panic p, s1) => (Panic p, s1)
      end
    else putSecret C host (org_path opts) (org_payload pk opts eValue []) s.
Proof.
  unfold putOrgSecret. cbv zeta. case_decide; [|done]. unfold_M.
  by destruct (mapRepoNameToID C host _ _ s) as [[[ids|err]|p] s1].
Qed.

End Runs.

(** ** [getPubKey] *)

(** C7: when the fetch reports no error and the [Key] field of the
    response is empty, [getPubKey] fails with an error of its own whose
    text holds the host and the path, whatever the key identifier of
    the response is; when the fetch reports an error, that error is
    returned as it is, and the two errors differ. *)
Theorem getPubKey_empty_key (C : Client) (host path : string) (s : state C) :
  (∀ w id,
     REST C (st_world s) host "GET" path None
       = (w, (mkPubKeyResult EmptyString id, None)) →
     ∃ err,
       (getPubKey C host path s).1 = Done (inr err)
       ∧ Error_string err = "failed to find public key at " +:+ host +:+ "/" +:+ path
       ∧ ∀ e, err ≠ ClientError e)
  ∧ (∀ w result e,
       REST C (st_world s) host "GET" path None = (w, (result, Some e)) →
       (getPubKey C host path s).1 = Done (inr (ClientError e))).
Proof.
  split.
  - intros w id H. eexists. rewrite getPubKey_unfold, H.
    split; [reflexivity|]. split; [reflexivity|]. intros e. discriminate.
  - intros w result e H. rewrite getPubKey_unfold, H. reflexivity.
Qed.

Lemma getPubKey_empty_key_witness :
  (∃ err,
     (getPubKey client_empty_key "github.com" key_path (start client_empty_key tt)).1
       = Done (inr err)
     ∧ Error_string err = "failed to find public key at " +:+ "github.com"
                          +:+ "/" +:+ key_path
     ∧ ∀ e, err ≠ ClientError e)
  ∧ (getPubKey client_get_fails "github.com" key_path (start client_get_fails tt)).1
    = Done (inr (ClientError (OtherClientError "HTTP 404"))).
Proof.
  split.
  - exact (proj1 (getPubKey_empty_key client_empty_key "github.com" key_path
                    (start client_empty_key tt))
                 tt "568250167242549743" eq_refl).
  - exact (proj2 (getPubKey_empty_key client_get_fails "github.com" key_path
                    (start client_get_fails tt))
                 tt (mkPubKeyResult "a2V5" "1") (OtherClientError "HTTP 404") eq_refl).
Defined.

(** ** [mapRepoNameToID] *)

(** X28: when the GraphQL call fails with a structured error list whose
    first entry of type NOT_FOUND carries a name at the head of its
    path, that entry decides the result: the function returns the error
    "could not find org/name", no identifier list, and not the error
    that wraps the failure of the call. *)
Theorem mapRepoNameToID_not_found (C : Client) (host orgName : string)
    (names : list string) (s : state C) w data pre ge post text name rest :
  GraphQL C (st_world s) host (build_query orgName names)
    = (w, (data, Some (GraphQLErrorResponse (pre ++ ge :: post) text))) →
  Forall (λ e, Type_ e ≠ "NOT_FOUND") pre →
  Type_ ge = "NOT_FOUND" →
  Path ge = name :: rest →
  ∃ err,
    (mapRepoNameToID C host orgName names s).1 = Done (inr err)
    ∧ err = errorString ("could not find " +:+ orgName +:+ "/" +:+ name)
    ∧ Unwrap err = None.
Proof.
  intros HG Hpre Hge Hpath. eexists. split; [|done].
  rewrite mapRepoNameToID_unfold. cbv zeta. rewrite HG.
  rewrite (scan_errors_first _ _ _ _ Hpre Hge), Hpath. reflexivity.
Qed.

Lemma mapRepoNameToID_not_found_witness :
  ∃ err,
    (mapRepoNameToID client_not_found "github.com" "acme" ["a"; "b"; "c"]
       (start client_not_found tt)).1 = Done (inr err)
    ∧ err = errorString ("could not find " +:+ "acme" +:+ "/" +:+ "b")
    ∧ Unwrap err = None.
Proof.
  apply (mapRepoNameToID_not_found client_not_found "github.com" "acme"
           ["a"; "b"; "c"] (start client_not_found tt)
           tt repos_a [forbidden "a"] (not_found "b") [not_found "c"]
           "GraphQL error: no access" "b" []).
  - reflexivity.
  - repeat constructor. discriminate.
  - reflexivity.
  - reflexivity.
Defined.

(** C1: an error list with an entry of type NOT_FOUND whose path is
    empty.  For the names a and b and a call that fails with that one
    entry, [ge.Path[0]] panics with an index out of range: the function
    returns no error at all, neither the one that names a repository
    nor the one that wraps the failure of the call. *)
Theorem mapRepoNameToID_not_found_no_path :
  GraphQL client_lost_path tt "github.com" (build_query "acme" ["a"; "b"])
    = (tt, (repos_a, Some (GraphQLErrorResponse [not_found_no_path]
                                                "GraphQL error: Could not resolve")))
  ∧ Type_ not_found_no_path = "NOT_FOUND"
  ∧ Path not_found_no_path = []
  ∧ (mapRepoNameToID client_lost_path "github.com" "acme" ["a"; "b"]
       (start client_lost_path tt)).1 = Panic (IndexOutOfRange 0 0).
Proof. repeat split; vm_compute; reflexivity. Qed.

(** X15: when the first entry of type NOT_FOUND has an empty path,
    [ge.Path[0]] panics with an index out of range. *)
Lemma mapRepoNameToID_empty_path (C : Client) host orgName names (s : state C)
    w data pre ge post text :
  GraphQL C (st_world s) host (build_query orgName names)
    = (w, (data, Some (GraphQLErrorResponse (pre ++ ge :: post) text))) →
  Forall (λ e, Type_ e ≠ "NOT_FOUND") pre →
  Type_ ge = "NOT_FOUND" →
  Path ge = [] →
  (mapRepoNameToID C host orgName names s).1 = Panic (IndexOutOfRange 0 0).
Proof.
  intros HG Hpre Hge Hpath. rewrite mapRepoNameToID_unfold. cbv zeta. rewrite HG.
  rewrite (scan_errors_first _ _ _ _ Hpre Hge), Hpath. reflexivity.
Qed.

(** X14: a failed call without a NOT_FOUND entry gives the generic
    error "failed to look up repositories: ...", which wraps the error
    of the call. *)
Lemma mapRepoNameToID_transport (C : Client) host orgName names (s : state C)
    w data e :
  GraphQL C (st_world s) host (build_query orgName names) = (w, (data, Some e)) →
  (∀ errs text, e = GraphQLErrorResponse errs text →
                Forall (λ g, Type_ g ≠ "NOT_FOUND") errs) →
  (mapRepoNameToID C host orgName names s).1 =
    Done (inr (wrapError ("failed to look up repositories: " +:+ api_error_string e)
                         (ClientError e))).
Proof.
  intros HG Hnf. rewrite mapRepoNameToID_unfold. cbv zeta. rewrite HG.
  destruct e as [errs text|text]; [|done].
  by rewrite (scan_errors_none _ _ (Hnf errs text eq_refl)).
Qed.

(** C2: every call that returns a list returns one identifier per
    requested name, in the order of the names: the i-th identifier is
    the one the response maps the i-th name to, however the response
    lists its entries.  The call returns a list whenever the GraphQL
    call reports no error and the response holds a pointer for every
    requested name. *)
Theorem mapRepoNameToID_order (C : Client) (host orgName : string)
    (names : list string) (s : state C) w
    (data : gmap string (option repoNode)) (err : option api_error) :
  GraphQL C (st_world s) host (build_query orgName names) = (w, (data, err)) →
  (∀ ids,
     (mapRepoNameToID C host orgName names s).1 = Done (inl ids) →
     length ids = length names
     ∧ ∀ i n, names !! i = Some n →
         ∃ id, data !! n = Some (Some (mkRepoNode id)) ∧ ids !! i = Some id)
  ∧ (err = None →
     (∀ n, n ∈ names → ∃ node, data !! n = Some (Some node)) →
     ∃ ids, (mapRepoNameToID C host orgName names s).1 = Done (inl ids)).
Proof.
  intros HG. split.
  - intros ids. rewrite mapRepoNameToID_unfold. cbv zeta. rewrite HG.
    destruct err as [e|].
    { by destruct (match e with GraphQLErrorResponse errs _ => _ | _ => _ end)
        as [[nf|p]|]. }
    destruct (collect_ids data names []) as [res|p] eqn:Hc; [|done].
    intros [= ->]. apply collect_ids_inv in Hc as (ids' & -> & Hf). simpl.
    split.
    + symmetry. eapply Forall2_length, Hf.
    + intros i n Hi.
      destruct (Forall2_lookup_l _ _ _ _ _ Hf Hi) as (id & Hid & Hd). eauto.
  - intros -> Hall.
    destruct (collect_ids_all data names [] Hall) as (ids & Hids & Hf).
    exists ids. rewrite mapRepoNameToID_unfold. cbv zeta. rewrite HG, Hids.
    reflexivity.
Qed.

Lemma mapRepoNameToID_order_witness :
  (length [10; 20]%Z = length ["a"; "b"]
   ∧ ∀ i n, ["a"; "b"] !! i = Some n →
       ∃ id, repos_ab !! n = Some (Some (mkRepoNode id))
             ∧ [10; 20]%Z !! i = Some id)
  ∧ ∃ ids,
      (mapRepoNameToID client_resolves "github.com" "acme" ["a"; "b"]
         (start client_resolves tt)).1 = Done (inl ids).
Proof.
  pose proof (mapRepoNameToID_order client_resolves "github.com" "acme" ["a"; "b"]
                (start client_resolves tt) tt repos_ab None eq_refl) as [H1 H2].
  split.
  - apply H1. vm_compute. reflexivity.
  - apply H2; [reflexivity|].
    intros n Hn. apply list_elem_of_In in Hn.
    destruct Hn as [<-|[<-|[]]]; eexists; vm_compute; reflexivity.
Defined.

Example mapRepoNameToID_a_b :
  (mapRepoNameToID client_resolves "github.com" "acme" ["a"; "b"]
     (start client_resolves tt)).1 = Done (inl [10; 20]%Z).
Proof. vm_compute. reflexivity. Qed.

(** The order in which the entries of the response are listed does not
    matter: two listings of the same entries give the same map. *)
Lemma mapRepoNameToID_entry_order key put host orgName names
    (l1 l2 : list (string * option repoNode)) :
  NoDup l1.*1 → l1 ≡ₚ l2 →
  (mapRepoNameToID (fixed_client key put (list_to_map l1, None)) host orgName names
     (mkState (tt : world (fixed_client key put (list_to_map l1, None))) [])).1
  = (mapRepoNameToID (fixed_client key put (list_to_map l2, None)) host orgName names
       (mkState (tt : world (fixed_client key put (list_to_map l2, None))) [])).1.
Proof.
  intros Hnd Hp. rewrite !mapRepoNameToID_unfold. cbv zeta. cbn [GraphQL fixed_client].
  by rewrite (list_to_map_proper (M:=gmap string) l1 l2 Hnd Hp).
Qed.

(** X16: whenever the call reports no error and some requested name has
    no pointer in the response (no entry, or a nil one), the function
    panics with a nil dereference. *)
Lemma mapRepoNameToID_missing (C : Client) host orgName names (s : state C)
    w (data : gmap string (option repoNode)) n :
  GraphQL C (st_world s) host (build_query orgName names) = (w, (data, None)) →
  n ∈ names → default None (data !! n) = None →
  (mapRepoNameToID C host orgName names s).1 = Panic NilPointerDereference.
Proof.
  intros HG Hin Hn. rewrite mapRepoNameToID_unfold. cbv zeta. rewrite HG.
  by rewrite (collect_ids_missing data names n [] Hin Hn).
Qed.

(** C4: a response without error whose map lacks a requested name.  For
    the names a and b and a response that holds a only, the lookup of
    b gives a nil pointer and reading its [DatabaseID] panics: the
    function does not return. *)
Theorem mapRepoNameToID_missing_entry :
  GraphQL client_partial tt "github.com" (build_query "acme" ["a"; "b"])
    = (tt, (repos_a, None))
  ∧ repos_a !! "b" = None
  ∧ (mapRepoNameToID client_partial "github.com" "acme" ["a"; "b"]
       (start client_partial tt)).1 = Panic NilPointerDereference.
Proof. split; [reflexivity|]. split; vm_compute; reflexivity. Qed.

(** ** [putOrgSecret] and [putRepoSecret] *)

(** C8: when the lookup of the repository names returns an error,
    [putOrgSecret] returns an error that wraps it (it is the result of
    [Unwrap]) and whose text holds the requested names; the log of
    client calls grows by the GraphQL call only, so no PUT is sent. *)
Theorem putOrgSecret_lookup_fails (C : Client) (pk : PubKey) (host : string)
    (opts : CreateOptions) (eValue : string) (s s1 : state C) (err : error) :
  OrgName opts ≠ EmptyString →
  Visibility_opt opts = visSelected →
  mapRepoNameToID C host (OrgName opts) (RepositoryNames opts) s
    = (Done (inr err), s1) →
  ∃ e,
    putOrgSecret C pk host opts eValue s = (Done (Some e), s1)
    ∧ Unwrap e = Some err
    ∧ Error_string e = "failed to look up IDs for repositories "
                       +:+ fmt_v (RepositoryNames opts) +:+ ": " +:+ Error_string err
    ∧ st_log s1 = st_log s
                  ++ [EvGraphQL host (build_query (OrgName opts) (RepositoryNames opts))]
    ∧ ∀ ev, ev ∈ st_log s1 → is_PUT ev → ev ∈ st_log s.
Proof.
  intros Horg Hvis Hmap.
  pose proof (mapRepoNameToID_log C host (OrgName opts) (RepositoryNames opts) s) as Hl.
  rewrite Hmap in Hl. simpl in Hl. eexists.
  split; [|split; [|split; [|split]]].
  - rewrite putOrgSecret_unfold, decide_True by done. rewrite Hmap. reflexivity.
  - reflexivity.
  - reflexivity.
  - exact Hl.
  - intros ev Hin Hput. rewrite Hl in Hin. apply elem_of_app in Hin.
    destruct Hin as [Hin|Hin]; [done|].
    apply list_elem_of_In in Hin. destruct Hin as [<-|[]]. destruct Hput.
Qed.

Lemma putOrgSecret_lookup_fails_witness :
  ∃ e,
    putOrgSecret client_not_found pk0 "github.com" opts_selected "c2VjcmV0"
        (start client_not_found tt)
      = (Done (Some e),
         @mkState client_not_found tt
           [EvGraphQL "github.com" (build_query "acme" ["a"; "b"])])
    ∧ Unwrap e = Some (errorString "could not find acme/b")
    ∧ Error_string e = "failed to look up IDs for repositories "
                       +:+ fmt_v (RepositoryNames opts_selected) +:+ ": "
                       +:+ Error_string (errorString "could not find acme/b")
    ∧ [EvGraphQL "github.com" (build_query "acme" ["a"; "b"])]
      = [] ++ [EvGraphQL "github.com"
                 (build_query (OrgName opts_selected) (RepositoryNames opts_selected))]
    ∧ ∀ ev, ev ∈ [EvGraphQL "github.com" (build_query "acme" ["a"; "b"])] →
            is_PUT ev → ev ∈ @nil event.
Proof.
  apply (putOrgSecret_lookup_fails client_not_found pk0 "github.com" opts_selected
           "c2VjcmV0" (start client_not_found tt)).
  - discriminate.
  - reflexivity.
  - reflexivity.
Defined.

(** C10: with an empty organization name no lookup is made, whatever the
    visibility: the only client call is the PUT on the path built from
    the empty name, its body has no [selected_repository_ids], and with
    the visibility "selected" it still has that [visibility]. *)
Theorem putOrgSecret_empty_org (C : Client) (pk : PubKey) (host : string)
    (opts : CreateOptions) (eValue : string) (s : state C) :
  OrgName opts = EmptyString →
  ∃ body,
    putOrgSecret C pk host opts eValue s
      = putSecret C host ("orgs//actions/secrets/" +:+ SecretName opts)
          {| EncryptedValue := eValue; Visibility := Visibility_opt opts;
             Repositories := []; KeyID := ID pk |} s
    ∧ st_log (putOrgSecret C pk host opts eValue s).2
      = st_log s ++ [EvREST host "PUT" ("orgs//actions/secrets/" +:+ SecretName opts)
                            (Some body)]
    ∧ ¬ has_field "selected_repository_ids" body
    ∧ (Visibility_opt opts = visSelected →
       get_field "visibility" body = Some (JString "selected")).
Proof.
  intros Horg. eexists.
  assert (putOrgSecret C pk host opts eValue s
          = putSecret C host ("orgs//actions/secrets/" +:+ SecretName opts)
              {| EncryptedValue := eValue; Visibility := Visibility_opt opts;
                 Repositories := []; KeyID := ID pk |} s) as Heq.
  { rewrite putOrgSecret_unfold, decide_False by tauto.
    unfold org_path, org_payload. rewrite Horg. reflexivity. }
  split; [exact Heq|]. rewrite Heq, putSecret_unfold. cbv zeta.
  destruct (REST C (st_world s) host "PUT" _ _) as [w [r rerr]].
  split; [reflexivity|]. split.
  - rewrite marshal_repositories. simpl. tauto.
  - intros Hv. rewrite marshal_visibility_value; simpl; by rewrite Hv.
Qed.

Lemma putOrgSecret_empty_org_witness :
  ∃ body,
    putOrgSecret client_not_found pk0 "github.com" opts_no_org "c2VjcmV0"
        (start client_not_found tt)
      = putSecret client_not_found "github.com"
          ("orgs//actions/secrets/" +:+ SecretName opts_no_org)
          {| EncryptedValue := "c2VjcmV0"; Visibility := Visibility_opt opts_no_org;
             Repositories := []; KeyID := ID pk0 |} (start client_not_found tt)
    ∧ st_log (putOrgSecret client_not_found pk0 "github.com" opts_no_org "c2VjcmV0"
                (start client_not_found tt)).2
      = st_log (start client_not_found tt)
        ++ [EvREST "github.com" "PUT"
              ("orgs//actions/secrets/" +:+ SecretName opts_no_org) (Some body)]
    ∧ ¬ has_field "selected_repository_ids" body
    ∧ (Visibility_opt opts_no_org = visSelected →
       get_field "visibility" body = Some (JString "selected")).
Proof.
  exact (putOrgSecret_empty_org client_not_found pk0 "github.com" opts_no_org
           "c2VjcmV0" (start client_not_found tt) eq_refl).
Defined.

Example putOrgSecret_empty_org_log :
  st_log (putOrgSecret client_not_found pk0 "github.com" opts_no_org "c2VjcmV0"
            (start client_not_found tt)).2
  = [EvREST "github.com" "PUT" "orgs//actions/secrets/TOKEN"
       (Some [("encrypted_value", JString "c2VjcmV0");
              ("visibility", JString "selected");
              ("key_id", JString "kid")])].
Proof. vm_compute. reflexivity. Qed.

(** C6, as the spec states it, fails for an empty visibility: the tag
    [omitempty] drops the [visibility] member of an organization
    payload as it does for a repository payload. *)
Lemma putOrgSecret_without_visibility :
  ∃ body,
    st_log (putOrgSecret client_plain pk0 "github.com" opts_no_visibility "c2VjcmV0"
              (start client_plain tt)).2
      = [EvREST "github.com" "PUT" secret_path (Some body)]
    ∧ ¬ has_field "visibility" body.
Proof.
  eexists. split; [vm_compute; reflexivity|].
  unfold has_field. rewrite list_elem_of_In. simpl.
  intros [H|[H|[]]]; discriminate.
Qed.

(** C6, amended: the body sent by [putRepoSecret] has neither
    [visibility] nor [selected_repository_ids]; a body sent by
    [putOrgSecret] has [visibility] exactly when the visibility option
    is not the empty string, and then with that value, and has
    [selected_repository_ids] exactly when the list of resolved
    identifiers is not empty, which needs a lookup that returned it:
    with a visibility other than "selected" the member is absent. *)
Theorem secret_payload_fields (C : Client) (pk : PubKey) (eValue : string)
    (s : state C) :
  (∀ r secretName, ∃ body,
     st_log (putRepoSecret C pk r secretName eValue s).2
       = st_log s ++ [EvREST (RepoHost r) "PUT"
                        ("repos/" +:+ FullName r +:+ "/actions/secrets/"
                         +:+ secretName) (Some body)]
     ∧ ¬ has_field "visibility" body
     ∧ ¬ has_field "selected_repository_ids" body)
  ∧ (∀ host opts evs host' path body,
       st_log (putOrgSecret C pk host opts eValue s).2 = st_log s ++ evs →
       EvREST host' "PUT" path body ∈ evs →
       ∃ ids obj,
         body = Some obj
         ∧ (has_field "visibility" obj ↔ Visibility_opt opts ≠ EmptyString)
         ∧ (Visibility_opt opts ≠ EmptyString →
            get_field "visibility" obj = Some (JString (Visibility_opt opts)))
         ∧ (has_field "selected_repository_ids" obj ↔ ids ≠ [])
         ∧ (ids ≠ [] →
            get_field "selected_repository_ids" obj = Some (JIntArray ids)
            ∧ OrgName opts ≠ EmptyString
            ∧ Visibility_opt opts = visSelected
            ∧ ∃ s1, mapRepoNameToID C host (OrgName opts) (RepositoryNames opts) s
                    = (Done (inl ids), s1))
         ∧ (Visibility_opt opts ≠ visSelected →
            ¬ has_field "selected_repository_ids" obj)).
Proof.
  split.
  - intros r secretName. eexists. unfold putRepoSecret. rewrite putSecret_unfold.
    cbv zeta. destruct (REST C (st_world s) _ "PUT" _ _) as [w [res rerr]].
    split; [reflexivity|]. split.
    + rewrite marshal_visibility. simpl. tauto.
    + rewrite marshal_repositories. simpl. tauto.
  - intros host opts evs host' path body Hlog Hin.
    assert (∀ ids, (ids ≠ [] → OrgName opts ≠ EmptyString
                               ∧ Visibility_opt opts = visSelected
                               ∧ ∃ s1, mapRepoNameToID C host (OrgName opts)
                                         (RepositoryNames opts) s
                                       = (Done (inl ids), s1)) →
            body = Some (json_Marshal (org_payload pk opts eValue ids)).1 →
            ∃ ids obj,
              body = Some obj
              ∧ (has_field "visibility" obj ↔ Visibility_opt opts ≠ EmptyString)
              ∧ (Visibility_opt opts ≠ EmptyString →
                 get_field "visibility" obj = Some (JString (Visibility_opt opts)))
              ∧ (has_field "selected_repository_ids" obj ↔ ids ≠ [])
              ∧ (ids ≠ [] →
                 get_field "selected_repository_ids" obj = Some (JIntArray ids)
                 ∧ OrgName opts ≠ EmptyString
                 ∧ Visibility_opt opts = visSelected
                 ∧ ∃ s1, mapRepoNameToID C host (OrgName opts)
                           (RepositoryNames opts) s = (Done (inl ids), s1))
              ∧ (Visibility_opt opts ≠ visSelected →
                 ¬ has_field "selected_repository_ids" obj)) as Hbody.
    { intros ids Hids ->. exists ids. eexists. split; [reflexivity|].
      set (p := org_payload pk opts eValue ids).
      split; [apply (marshal_visibility p)|].
      split; [apply (marshal_visibility_value p)|].
      split; [apply (marshal_repositories p)|].
      split.
      - intros Hne. split; [by apply (marshal_repositories_value p)|]. by apply Hids.
      - intros Hv. rewrite (marshal_repositories p). simpl. intros Hne.
        destruct (Hids Hne) as (_ & Hsel & _). done. }
    rewrite putOrgSecret_unfold in Hlog. case_decide as Hg.
    + pose proof (mapRepoNameToID_log C host (OrgName opts) (RepositoryNames opts) s)
        as Hl.
      destruct (mapRepoNameToID C host _ _ s) as [[[ids|err]|p] s1] eqn:Hm;
        simpl in Hl.
      * rewrite putSecret_unfold in Hlog. cbv zeta in Hlog.
        destruct (REST C (st_world s1) host "PUT" _ _) as [w [res rerr]].
        simpl in Hlog. rewrite Hl, <- app_assoc in Hlog.
        apply app_inv_head in Hlog. subst evs.
        apply list_elem_of_In in Hin. destruct Hin as [Hin|[Hin|[]]]; [done|].
        injection Hin as _ _ <-. apply (Hbody ids); [|done].
        intros _. destruct Hg. eauto.
      * simpl in Hlog. rewrite Hl in Hlog. apply app_inv_head in Hlog. subst evs.
        apply list_elem_of_In in Hin. by destruct Hin as [Hin|[]].
      * simpl in Hlog. rewrite Hl in Hlog. apply app_inv_head in Hlog. subst evs.
        apply list_elem_of_In in Hin. by destruct Hin as [Hin|[]].
    + rewrite putSecret_unfold in Hlog. cbv zeta in Hlog.
      destruct (REST C (st_world s) host "PUT" _ _) as [w [res rerr]].
      simpl in Hlog. apply app_inv_head in Hlog. subst evs.
      apply list_elem_of_In in Hin. destruct Hin as [Hin|[]].
      injection Hin as _ _ <-. apply (Hbody []); [|done]. done.
Qed.

Lemma secret_payload_fields_witness :
  ∃ ids obj,
    Some body_selected = Some obj
    ∧ (has_field "visibility" obj ↔ Visibility_opt opts_selected ≠ EmptyString)
    ∧ (Visibility_opt opts_selected ≠ EmptyString →
       get_field "visibility" obj = Some (JString (Visibility_opt opts_selected)))
    ∧ (has_field "selected_repository_ids" obj ↔ ids ≠ [])
    ∧ (ids ≠ [] →
       get_field "selected_repository_ids" obj = Some (JIntArray ids)
       ∧ OrgName opts_selected ≠ EmptyString
       ∧ Visibility_opt opts_selected = visSelected
       ∧ ∃ s1, mapRepoNameToID client_resolves "github.com" (OrgName opts_selected)
                 (RepositoryNames opts_selected) (start client_resolves tt)
               = (Done (inl ids), s1))
    ∧ (Visibility_opt opts_selected ≠ visSelected →
       ¬ has_field "selected_repository_ids" obj).
Proof.
  apply (proj2 (secret_payload_fields client_resolves pk0 "c2VjcmV0"
                  (start client_resolves tt))
           "github.com" opts_selected
           [EvGraphQL "github.com" (build_query "acme" ["a"; "b"]);
            EvREST "github.com" "PUT" secret_path (Some body_selected)]
           "github.com" secret_path (Some body_selected)).
  - vm_compute. reflexivity.
  - apply list_elem_of_In. right. left. reflexivity.
Defined.

(** ** [putSecret] *)

Lemma store_client_idempotent : idempotent_PUT store_client.
Proof.
  intros w host path body w1 r1. cbn [REST store_client].
  rewrite !decide_True by done. intros [= <- <-]. eexists. split; [|done].
  f_equal. destruct body as [b|]; [|done]. apply insert_insert_eq.
Qed.

(** On the store of the spec a put never reports an error, and it
    leaves the body at its path. *)
Lemma store_client_put host path payload (s : state store_client) :
  (putSecret store_client host path payload s).1 = Done None
  ∧ st_world (putSecret store_client host path payload s).2 !! (host, path)
    = Some (json_Marshal payload).1.
Proof.
  rewrite putSecret_unfold. cbv zeta. cbn [REST store_client].
  rewrite decide_True by done. simpl. split; [done|]. apply lookup_insert_eq.
Qed.

(** What [putSecret] does whatever the transport: each call makes one
    client call, a PUT with the host, the path and the marshalled
    payload, so two calls with the same arguments send the same
    request twice. *)
Lemma putSecret_same_request (C : Client) host path payload (s : state C) :
  let ev := EvREST host "PUT" path (Some (json_Marshal payload).1) in
  st_log (putSecret C host path payload s).2 = st_log s ++ [ev]
  ∧ st_log (putSecret C host path payload (putSecret C host path payload s).2).2
    = st_log s ++ [ev; ev].
Proof.
  cbv zeta. rewrite !putSecret_unfold. cbv zeta.
  destruct (REST C (st_world s) host "PUT" path _) as [w1 [res1 e1]].
  cbn [snd st_world st_log].
  destruct (REST C w1 host "PUT" path _) as [w2 [res2 e2]].
  cbn [snd st_log]. by rewrite <- app_assoc.
Qed.

(** C9: two calls of [putSecret] with the same host, path and payload
    send the same PUT request twice; against a transport whose put is
    idempotent, as the store of the spec is, the second call gives the
    outcome of the first and leaves the remote state as the first call
    left it, and after a first call without error it reports no
    error. *)
Theorem putSecret_idempotent (C : Client) (host path : string)
    (payload : SecretPayload) (s : state C) :
  st_log (putSecret C host path payload (putSecret C host path payload s).2).2
    = st_log s ++ [EvREST host "PUT" path (Some (json_Marshal payload).1);
                   EvREST host "PUT" path (Some (json_Marshal payload).1)]
  ∧ (idempotent_PUT C →
     (putSecret C host path payload (putSecret C host path payload s).2).1
       = (putSecret C host path payload s).1
     ∧ st_world (putSecret C host path payload
                   (putSecret C host path payload s).2).2
       = st_world (putSecret C host path payload s).2
     ∧ ((putSecret C host path payload s).1 = Done None →
        (putSecret C host path payload (putSecret C host path payload s).2).1
          = Done None)).
Proof.
  split; [apply putSecret_same_request|]. intros Hidem.
  assert ((putSecret C host path payload (putSecret C host path payload s).2).1
            = (putSecret C host path payload s).1
          ∧ st_world (putSecret C host path payload
                        (putSecret C host path payload s).2).2
            = st_world (putSecret C host path payload s).2) as [H1 H2].
  { rewrite !putSecret_unfold. cbv zeta.
    destruct (REST C (st_world s) host "PUT" path _) as [w1 [res1 e1]] eqn:HR.
    cbn [snd st_world]. destruct (Hidem _ _ _ _ _ _ HR) as ([res2 e2] & HR2 & He).
    rewrite HR2. simpl in *. by subst e2. }
  split; [done|]. split; [done|]. intros H. by rewrite H1.
Qed.

Lemma putSecret_idempotent_witness :
  (putSecret store_client "github.com" secret_path payload_all
     (putSecret store_client "github.com" secret_path payload_all
        (start store_client ∅)).2).1
    = (putSecret store_client "github.com" secret_path payload_all
         (start store_client ∅)).1
  ∧ st_world (putSecret store_client "github.com" secret_path payload_all
                (putSecret store_client "github.com" secret_path payload_all
                   (start store_client ∅)).2).2
    = st_world (putSecret store_client "github.com" secret_path payload_all
                  (start store_client ∅)).2
  ∧ ((putSecret store_client "github.com" secret_path payload_all
        (start store_client ∅)).1 = Done None →
     (putSecret store_client "github.com" secret_path payload_all
        (putSecret store_client "github.com" secret_path payload_all
           (start store_client ∅)).2).1 = Done None).
Proof.
  exact (proj2 (putSecret_idempotent store_client "github.com" secret_path
                  payload_all (start store_client ∅))
               store_client_idempotent).
Defined.

Example putSecret_twice_on_store :
  (putSecret store_client "github.com" secret_path payload_all
     (putSecret store_client "github.com" secret_path payload_all
        (start store_client ∅)).2).1 = Done None.
Proof. apply store_client_put. Qed.

(** * Further properties of the functions *)

#[local] Set Warnings "-clear-no-such-hyp".

(** ** [NewPubKey] *)

Lemma NewPubKey_short_panics_witness :
  NewPubKey "aGk=" "kid"
  = Panic (SliceBoundsOutOfRange 32 (DecodedLen (String.length "aGk="))).
Proof.
  apply (NewPubKey_short_panics "aGk=" "kid").
  - vm_compute. reflexivity.
  - vm_compute. lia.
Defined.

Lemma NewPubKey_padded_witness :
  NewPubKey short_key_with_breaks "kid"
  = Done (inl {| Key := decoded short_key_with_breaks
                        ++ replicate (32 - length (decoded short_key_with_breaks)) x00;
                 ID := "kid"; encoded := short_key_with_breaks |}).
Proof.
  apply (NewPubKey_padded short_key_with_breaks "kid").
  - vm_compute. reflexivity.
  - vm_compute. lia.
  - vm_compute. lia.
Defined.

Example NewPubKey_padded_key :
  Key <$> (match NewPubKey short_key_with_breaks "kid" with
           | Done (inl pk) => Some pk
           | _ => None
           end)
  = Some ([x68; x69] ++ replicate 30 x00).
Proof. vm_compute. reflexivity. Qed.

Lemma DecodedLen_44 n : 32 ≤ DecodedLen n ↔ 44 ≤ n.
Proof.
  unfold DecodedLen. split; intros H.
  - destruct (decide (44 ≤ n)) as [|Hn]; [done|].
    assert (n / 4 ≤ 10); [|lia].
    apply Nat.lt_succ_r, Nat.Div0.div_lt_upper_bound. lia.
  - assert (11 ≤ n / 4); [|lia].
    apply Nat.div_le_lower_bound; lia.
Qed.

(** X3: whatever its input, a key that [NewPubKey] returns has exactly
    32 bytes, the given identifier and the input string as its
    [String()], and it is returned only for a string of at least 44
    bytes that decodes without error: the key is then the first 32 bytes
    of the decoded bytes followed by zero bytes. *)
Theorem NewPubKey_returned_key (encodedKey keyID : string) (pk : PubKey) :
  NewPubKey encodedKey keyID = Done (inl pk) →
  length (Key pk) = 32
  ∧ ID pk = keyID
  ∧ PubKey_String pk = encodedKey
  ∧ valid_base64 encodedKey
  ∧ 44 ≤ String.length encodedKey
  ∧ Key pk = take 32 (decoded encodedKey
                      ++ replicate (32 - length (decoded encodedKey)) x00).
Proof.
  intros H.
  assert (valid_base64 encodedKey) as Hv.
  { unfold valid_base64. unfold NewPubKey in H.
    by destruct (DecodeString encodedKey) as [sl [e|]]. }
  rewrite NewPubKey_decoded in H by done. case_decide as Hc; [|done].
  injection H as <-. cbn [Key ID encoded PubKey_String].
  split.
  { rewrite length_take, length_app, length_replicate. lia. }
  by rewrite <- DecodedLen_44.
Qed.

Lemma NewPubKey_returned_key_witness :
  length (Key {| Key := replicate 32 xff; ID := "kid"; encoded := key34 |}) = 32
  ∧ ID {| Key := replicate 32 xff; ID := "kid"; encoded := key34 |} = "kid"
  ∧ PubKey_String {| Key := replicate 32 xff; ID := "kid"; encoded := key34 |} = key34
  ∧ valid_base64 key34
  ∧ 44 ≤ String.length key34
  ∧ Key {| Key := replicate 32 xff; ID := "kid"; encoded := key34 |}
    = take 32 (decoded key34 ++ replicate (32 - length (decoded key34)) x00).
Proof.
  apply (NewPubKey_returned_key key34 "kid"). vm_compute. reflexivity.
Defined.

(** X4: the three outcomes of [NewPubKey] are decided by the string
    alone: a key exactly when it decodes without error and has 44 bytes
    or more, a panic exactly when it decodes without error and is
    shorter, an error exactly when it does not decode. *)
Theorem NewPubKey_outcomes (encodedKey keyID : string) :
  ((∃ pk, NewPubKey encodedKey keyID = Done (inl pk))
   ↔ valid_base64 encodedKey ∧ 44 ≤ String.length encodedKey)
  ∧ ((∃ p, NewPubKey encodedKey keyID = Panic p)
     ↔ valid_base64 encodedKey ∧ String.length encodedKey < 44)
  ∧ ((∃ e, NewPubKey encodedKey keyID = Done (inr e))
     ↔ ¬ valid_base64 encodedKey).
Proof.
  unfold valid_base64.
  destruct ((DecodeString encodedKey).2) as [e|] eqn:He.
  - assert (NewPubKey encodedKey keyID
            = Done (inr (wrapError ("failed to decode public key: "
                                    +:+ Error_string e) e))) as ->.
    { unfold NewPubKey. destruct (DecodeString encodedKey) as [sl err].
      simpl in He. by subst err. }
    split; [|split]; naive_solver.
  - rewrite NewPubKey_decoded by done. case_decide as Hc.
    + apply DecodedLen_44 in Hc. split; [|split]; naive_solver lia.
    + rewrite DecodedLen_44 in Hc. split; [|split]; naive_solver lia.
Qed.

Lemma NewPubKey_outcomes_witness :
  (∃ pk, NewPubKey key34 "kid" = Done (inl pk))
  ∧ (∃ p, NewPubKey "aGk=" "kid" = Panic p)
  ∧ (∃ e, NewPubKey "aGk" "kid" = Done (inr e)).
Proof.
  split; [|split].
  - apply (proj1 (NewPubKey_outcomes key34 "kid")). split.
    + vm_compute. reflexivity.
    + vm_compute. lia.
  - apply (proj1 (proj2 (NewPubKey_outcomes "aGk=" "kid"))). split.
    + vm_compute. reflexivity.
    + vm_compute. lia.
  - apply (proj2 (proj2 (NewPubKey_outcomes "aGk" "kid"))).
    vm_compute. discriminate.
Defined.

(** ** [getPubKey], [getOrgPublicKey] and [getRepoPubKey] *)

(** X5: whatever the response, [getPubKey] makes one client call, the
    GET on the host and path it was given, without a body; it sends no
    PUT and no GraphQL query, and leaves the remote state as that one
    call left it. *)
Theorem getPubKey_single_call (C : Client) (host path : string) (s : state C) :
  st_log (getPubKey C host path s).2 = st_log s ++ [EvREST host "GET" path None]
  ∧ st_world (getPubKey C host path s).2
    = (REST C (st_world s) host "GET" path None).1.
Proof.
  rewrite getPubKey_unfold.
  destruct (REST C (st_world s) host "GET" path None) as [w [result [e|]]];
    [done|]. by case_decide.
Qed.

(** X6: a key that [getPubKey] returns comes from a fetch without error
    whose [Key] field is not empty: its identifier is the [key_id] of
    the response, its [String()] the [Key] field, and it has 32 bytes. *)
Theorem getPubKey_returned_key (C : Client) (host path : string) (s : state C)
    (pk : PubKey) :
  (getPubKey C host path s).1 = Done (inl pk) →
  ∃ w result,
    REST C (st_world s) host "GET" path None = (w, (result, None))
    ∧ result_Key result ≠ EmptyString
    ∧ ID pk = result_ID result
    ∧ PubKey_String pk = result_Key result
    ∧ length (Key pk) = 32.
Proof.
  rewrite getPubKey_unfold.
  destruct (REST C (st_world s) host "GET" path None) as [w [result [e|]]];
    [done|].
  case_decide as Hk; [done|]. cbn [fst]. intros H.
  exists w, result. split; [done|]. split; [done|].
  pose proof (NewPubKey_key_length _ _ _ H) as Hlen.
  unfold NewPubKey in H.
  destruct (DecodeString (result_Key result)) as [sl [e|]]; [done|].
  destruct (slice_to sl 32) as [src|p]; [|done].
  cbn [mbind outcome_mbind outcome_bind] in H. by injection H as <-.
Qed.

Lemma getPubKey_returned_key_witness :
  ∃ w result,
    REST client_good_key (st_world (start client_good_key tt)) "github.com"
         "GET" key_path None = (w, (result, None))
    ∧ result_Key result ≠ EmptyString
    ∧ ID pk1 = result_ID result
    ∧ PubKey_String pk1 = result_Key result
    ∧ length (Key pk1) = 32.
Proof.
  apply (getPubKey_returned_key client_good_key "github.com" key_path
           (start client_good_key tt) pk1).
  vm_compute. reflexivity.
Defined.

(** X7: a fetch without error whose [Key] field is valid base64 of
    fewer than 44 bytes, not empty, makes [getPubKey] panic on the slice
    bounds: a response of the server can crash the caller. *)
Theorem getPubKey_short_key_panics (C : Client) (host path : string)
    (s : state C) w result :
  REST C (st_world s) host "GET" path None = (w, (result, None)) →
  result_Key result ≠ EmptyString →
  valid_base64 (result_Key result) →
  String.length (result_Key result) < 44 →
  (getPubKey C host path s).1
  = Panic (SliceBoundsOutOfRange 32 (DecodedLen (String.length (result_Key result)))).
Proof.
  intros HR Hk Hv Hl. rewrite getPubKey_unfold, HR.
  rewrite decide_False by done. cbn [fst].
  rewrite NewPubKey_decoded by done.
  rewrite decide_False; [done|]. rewrite DecodedLen_44. lia.
Qed.

Lemma getPubKey_short_key_panics_witness :
  (getPubKey client_short_key "github.com" key_path (start client_short_key tt)).1
  = Panic (SliceBoundsOutOfRange 32
             (DecodedLen (String.length (result_Key (mkPubKeyResult "aGk=" "kid"))))).
Proof.
  apply (getPubKey_short_key_panics client_short_key "github.com" key_path
           (start client_short_key tt) tt (mkPubKeyResult "aGk=" "kid")).
  - reflexivity.
  - discriminate.
  - vm_compute. reflexivity.
  - vm_compute. lia.
Defined.

(** X8: a fetch without error whose [Key] field does not decode as
    base64 makes [getPubKey] return the error of [NewPubKey], which
    wraps the decoder's error; the empty-key error is not involved. *)
Theorem getPubKey_bad_key (C : Client) (host path : string) (s : state C)
    w result e :
  REST C (st_world s) host "GET" path None = (w, (result, None)) →
  (DecodeString (result_Key result)).2 = Some e →
  (getPubKey C host path s).1
  = Done (inr (wrapError ("failed to decode public key: " +:+ Error_string e) e)).
Proof.
  intros HR He. rewrite getPubKey_unfold, HR.
  rewrite decide_False.
  - cbn [fst]. unfold NewPubKey.
    destruct (DecodeString (result_Key result)) as [sl err]. simpl in He.
    by subst err.
  - intros Hk. rewrite Hk in He. vm_compute in He. discriminate.
Qed.

Lemma getPubKey_bad_key_witness :
  (getPubKey client_bad_key "github.com" key_path (start client_bad_key tt)).1
  = Done (inr (wrapError ("failed to decode public key: "
                          +:+ Error_string (CorruptInputError 1))
                         (CorruptInputError 1))).
Proof.
  apply (getPubKey_bad_key client_bad_key "github.com" key_path
           (start client_bad_key tt) tt (mkPubKeyResult "a!==" "kid")).
  - reflexivity.
  - vm_compute. reflexivity.
Defined.

(** X9: [getOrgPublicKey] and [getRepoPubKey] make their one GET on
    orgs/ORG/actions/secrets/public-key on the given host and on
    repos/FULLNAME/actions/secrets/public-key on the host of the
    repository; when the response has no error and an empty [Key], the
    text of the error they return names that host and path. *)
Theorem public_key_endpoints (C : Client) (s : state C) :
  (∀ host orgName,
     st_log (getOrgPublicKey C host orgName s).2
       = st_log s ++ [EvREST host "GET"
                        ("orgs/" +:+ orgName +:+ "/actions/secrets/public-key") None]
     ∧ ∀ w id,
         REST C (st_world s) host "GET"
              ("orgs/" +:+ orgName +:+ "/actions/secrets/public-key") None
           = (w, (mkPubKeyResult EmptyString id, None)) →
         ∃ err, (getOrgPublicKey C host orgName s).1 = Done (inr err)
                ∧ Error_string err
                  = "failed to find public key at " +:+ host +:+ "/orgs/"
                    +:+ orgName +:+ "/actions/secrets/public-key")
  ∧ (∀ r,
       st_log (getRepoPubKey C r s).2
         = st_log s ++ [EvREST (RepoHost r) "GET"
                          ("repos/" +:+ FullName r +:+ "/actions/secrets/public-key")
                          None]
       ∧ ∀ w id,
           REST C (st_world s) (RepoHost r) "GET"
                ("repos/" +:+ FullName r +:+ "/actions/secrets/public-key") None
             = (w, (mkPubKeyResult EmptyString id, None)) →
           ∃ err, (getRepoPubKey C r s).1 = Done (inr err)
                  ∧ Error_string err
                    = "failed to find public key at " +:+ RepoHost r +:+ "/repos/"
                      +:+ FullName r +:+ "/actions/secrets/public-key").
Proof.
  split.
  - intros host orgName. unfold getOrgPublicKey. rewrite getPubKey_unfold.
    destruct (REST C (st_world s) host "GET" _ None) as [w [result [e|]]] eqn:HR.
    + split; [done|]. intros w' id [=].
    + split; [by case_decide|]. intros w' id [= <- ->]. eexists.
      split; [reflexivity|]. reflexivity.
  - intros r. unfold getRepoPubKey. rewrite getPubKey_unfold.
    destruct (REST C (st_world s) (RepoHost r) "GET" _ None)
      as [w [result [e|]]] eqn:HR.
    + split; [done|]. intros w' id [=].
    + split; [by case_decide|]. intros w' id [= <- ->]. eexists.
      split; [reflexivity|]. reflexivity.
Qed.

Lemma public_key_endpoints_witness :
  (∃ err, (getOrgPublicKey client_empty_key "github.com" "acme"
             (start client_empty_key tt)).1 = Done (inr err)
          ∧ Error_string err
            = "failed to find public key at " +:+ "github.com" +:+ "/orgs/"
              +:+ "acme" +:+ "/actions/secrets/public-key")
  ∧ (∃ err, (getRepoPubKey client_empty_key repo0 (start client_empty_key tt)).1
            = Done (inr err)
            ∧ Error_string err
              = "failed to find public key at " +:+ RepoHost repo0 +:+ "/repos/"
                +:+ FullName repo0 +:+ "/actions/secrets/public-key").
Proof.
  split.
  - exact (proj2 (proj1 (public_key_endpoints client_empty_key
                           (start client_empty_key tt)) "github.com" "acme")
                 tt "568250167242549743" eq_refl).
  - exact (proj2 (proj2 (public_key_endpoints client_empty_key
                           (start client_empty_key tt)) repo0)
                 tt "568250167242549743" eq_refl).
Defined.

(** ** [SecretPayload] and [putSecret] *)

Lemma marshal_fixed_members p :
  has_field "encrypted_value" (json_Marshal p).1
  ∧ has_field "key_id" (json_Marshal p).1.
Proof.
  unfold has_field, json_Marshal. cbn [fst].
  split; repeat case_decide; rewrite list_elem_of_In; simpl; tauto.
Qed.

(** X11: [putSecret] never panics and never reports a serialization
    error: it makes one client call, the PUT with the marshalled
    payload, and returns the error value of that call as it is, or none
    when the call reported none.  The body it sends always has the
    members [encrypted_value] and [key_id]. *)
Theorem putSecret_verdict (C : Client) (host path : string)
    (payload : SecretPayload) (s : state C) :
  (putSecret C host path payload s).1
    = Done (ClientError <$>
              (REST C (st_world s) host "PUT" path
                    (Some (json_Marshal payload).1)).2.2)
  ∧ (∀ e, (putSecret C host path payload s).1 = Done (Some e) →
       ∃ a, e = ClientError a
            ∧ (REST C (st_world s) host "PUT" path
                    (Some (json_Marshal payload).1)).2.2 = Some a)
  ∧ ((putSecret C host path payload s).1 = Done None
     ↔ (REST C (st_world s) host "PUT" path
             (Some (json_Marshal payload).1)).2.2 = None)
  ∧ ∃ body,
      st_log (putSecret C host path payload s).2
        = st_log s ++ [EvREST host "PUT" path (Some body)]
      ∧ has_field "encrypted_value" body
      ∧ has_field "key_id" body.
Proof.
  rewrite putSecret_unfold. cbv zeta.
  destruct (REST C (st_world s) host "PUT" path _) as [w [res rerr]].
  cbn [fst snd st_log]. split; [done|]. split; [|split].
  - intros e [= He]. destruct rerr as [a|]; simplify_eq/=. eauto.
  - by destruct rerr.
  - eexists. split; [reflexivity|]. apply marshal_fixed_members.
Qed.

Lemma putSecret_verdict_witness :
  ∃ a, ClientError (OtherClientError "HTTP 403") = ClientError a
       ∧ (REST client_put_fails (st_world (start client_put_fails tt)) "github.com"
               "PUT" secret_path (Some (json_Marshal payload_all).1)).2.2 = Some a.
Proof.
  apply (proj1 (proj2 (putSecret_verdict client_put_fails "github.com" secret_path
                         payload_all (start client_put_fails tt)))).
  vm_compute. reflexivity.
Defined.

(** ** [mapRepoNameToID] *)

(** X12: whatever the number of names and whatever the outcome (a list,
    an error or a panic), [mapRepoNameToID] makes one client call: the
    GraphQL query built from all the names.  It makes no REST call. *)
Theorem mapRepoNameToID_single_call (C : Client) (host orgName : string)
    (names : list string) (s : state C) :
  st_log (mapRepoNameToID C host orgName names s).2
    = st_log s ++ [EvGraphQL host (build_query orgName names)]
  ∧ st_world (mapRepoNameToID C host orgName names s).2
    = (GraphQL C (st_world s) host (build_query orgName names)).1.
Proof.
  split; [apply mapRepoNameToID_log|].
  rewrite mapRepoNameToID_unfold. cbv zeta.
  destruct (GraphQL C (st_world s) host _) as [w [graphqlResult [e|]]].
  - by destruct (match e with GraphQLErrorResponse errs _ => _ | _ => _ end)
      as [[nf|p]|].
  - by destruct (collect_ids graphqlResult names []).
Qed.

(** X13: with an empty list of names the query has an empty selection,
    and when the call reports no error the result is the empty list,
    whatever the response holds. *)
Theorem mapRepoNameToID_no_names (C : Client) (host orgName : string)
    (s : state C) w data :
  GraphQL C (st_world s) host "query MapRepositoryNames {  }" = (w, (data, None)) →
  build_query orgName [] = "query MapRepositoryNames {  }"
  ∧ (mapRepoNameToID C host orgName [] s).1 = Done (inl []).
Proof.
  intros HG. split; [reflexivity|].
  rewrite mapRepoNameToID_unfold. cbv zeta.
  change (build_query orgName []) with "query MapRepositoryNames {  }".
  by rewrite HG.
Qed.

Lemma mapRepoNameToID_no_names_witness :
  build_query "acme" [] = "query MapRepositoryNames {  }"
  ∧ (mapRepoNameToID client_resolves "github.com" "acme" []
       (start client_resolves tt)).1 = Done (inl []).
Proof.
  apply (mapRepoNameToID_no_names client_resolves "github.com" "acme"
           (start client_resolves tt) tt repos_ab).
  reflexivity.
Defined.

Lemma mapRepoNameToID_transport_witness :
  (mapRepoNameToID client_gql_down "github.com" "acme" ["a"; "b"]
     (start client_gql_down tt)).1
  = Done (inr (wrapError ("failed to look up repositories: "
                          +:+ api_error_string (OtherClientError "connection refused"))
                         (ClientError (OtherClientError "connection refused")))).
Proof.
  apply (mapRepoNameToID_transport client_gql_down "github.com" "acme" ["a"; "b"]
           (start client_gql_down tt) tt ∅ (OtherClientError "connection refused")).
  - reflexivity.
  - intros errs text. discriminate.
Defined.

Lemma mapRepoNameToID_empty_path_witness :
  (mapRepoNameToID client_no_path "github.com" "acme" ["a"; "b"]
     (start client_no_path tt)).1 = Panic (IndexOutOfRange 0 0).
Proof.
  apply (mapRepoNameToID_empty_path client_no_path "github.com" "acme" ["a"; "b"]
           (start client_no_path tt) tt ∅ [forbidden "a"] not_found_no_path []
           "GraphQL error: no access").
  - reflexivity.
  - repeat constructor. discriminate.
  - reflexivity.
  - reflexivity.
Defined.

Lemma mapRepoNameToID_missing_witness :
  (mapRepoNameToID client_partial "github.com" "acme" ["b"; "a"]
     (start client_partial tt)).1 = Panic NilPointerDereference.
Proof.
  apply (mapRepoNameToID_missing client_partial "github.com" "acme" ["b"; "a"]
           (start client_partial tt) tt repos_a "b").
  - reflexivity.
  - apply list_elem_of_In. left. reflexivity.
  - vm_compute. reflexivity.
Defined.

(** X17: when the GraphQL call reports an error, of whatever kind,
    [mapRepoNameToID] never returns a list, even when the response
    holds an entry for every name: there is no partial success. *)
Theorem mapRepoNameToID_error_no_list (C : Client) (host orgName : string)
    (names : list string) (s : state C) w data e :
  GraphQL C (st_world s) host (build_query orgName names) = (w, (data, Some e)) →
  ∀ ids, (mapRepoNameToID C host orgName names s).1 ≠ Done (inl ids).
Proof.
  intros HG ids. rewrite mapRepoNameToID_unfold. cbv zeta. rewrite HG.
  by destruct (match e with GraphQLErrorResponse errs _ => _ | _ => _ end)
    as [[nf|p]|].
Qed.

Lemma mapRepoNameToID_error_no_list_witness :
  (mapRepoNameToID client_not_found "github.com" "acme" ["a"]
     (start client_not_found tt)).1 ≠ Done (inl [10%Z]).
Proof.
  apply (mapRepoNameToID_error_no_list client_not_found "github.com" "acme" ["a"]
           (start client_not_found tt) tt repos_a
           (GraphQLErrorResponse [forbidden "a"; not_found "b"; not_found "c"]
                                 "GraphQL error: no access")).
  reflexivity.
Defined.

(** ** [putOrgSecret] and [putRepoSecret], continued *)

(** X18: with a visibility other than "selected", [putOrgSecret] makes
    no lookup even when repository names are given: its only client
    call is the PUT on orgs/ORG/actions/secrets/NAME, whose body has the
    visibility as given and no [selected_repository_ids]. *)
Theorem putOrgSecret_not_selected (C : Client) (pk : PubKey) (host : string)
    (opts : CreateOptions) (eValue : string) (s : state C) :
  Visibility_opt opts ≠ visSelected →
  ∃ body,
    putOrgSecret C pk host opts eValue s
      = putSecret C host (org_path opts) (org_payload pk opts eValue []) s
    ∧ st_log (putOrgSecret C pk host opts eValue s).2
      = st_log s ++ [EvREST host "PUT" (org_path opts) (Some body)]
    ∧ ¬ has_field "selected_repository_ids" body
    ∧ (Visibility_opt opts ≠ EmptyString →
       get_field "visibility" body = Some (JString (Visibility_opt opts))).
Proof.
  intros Hv. eexists.
  assert (putOrgSecret C pk host opts eValue s
          = putSecret C host (org_path opts) (org_payload pk opts eValue []) s)
    as Heq.
  { rewrite putOrgSecret_unfold, decide_False; [done | tauto]. }
  split; [exact Heq|]. rewrite Heq, putSecret_unfold. cbv zeta.
  destruct (REST C (st_world s) host "PUT" _ _) as [w [r rerr]].
  split; [reflexivity|]. split.
  - rewrite (marshal_repositories (org_payload pk opts eValue [])). simpl. tauto.
  - apply (marshal_visibility_value (org_payload pk opts eValue [])).
Qed.

Lemma putOrgSecret_not_selected_witness :
  ∃ body,
    putOrgSecret client_not_found pk0 "github.com" opts_all "c2VjcmV0"
        (start client_not_found tt)
      = putSecret client_not_found "github.com" (org_path opts_all)
          (org_payload pk0 opts_all "c2VjcmV0" []) (start client_not_found tt)
    ∧ st_log (putOrgSecret client_not_found pk0 "github.com" opts_all "c2VjcmV0"
                (start client_not_found tt)).2
      = st_log (start client_not_found tt)
        ++ [EvREST "github.com" "PUT" (org_path opts_all) (Some body)]
    ∧ ¬ has_field "selected_repository_ids" body
    ∧ (Visibility_opt opts_all ≠ EmptyString →
       get_field "visibility" body = Some (JString (Visibility_opt opts_all))).
Proof.
  apply (putOrgSecret_not_selected client_not_found pk0 "github.com" opts_all
           "c2VjcmV0" (start client_not_found tt)).
  discriminate.
Defined.

(** X19: with an organization name and the visibility "selected", when
    the lookup returns a list, [putOrgSecret] makes two client calls,
    the GraphQL query and then the PUT on orgs/ORG/actions/secrets/NAME,
    and returns what the PUT returns; the body has the visibility
    "selected", and the list of identifiers in the order of the lookup
    when that list is not empty. *)
Theorem putOrgSecret_selected (C : Client) (pk : PubKey) (host : string)
    (opts : CreateOptions) (eValue : string) (s s1 : state C) (ids : list Z) :
  OrgName opts ≠ EmptyString →
  Visibility_opt opts = visSelected →
  mapRepoNameToID C host (OrgName opts) (RepositoryNames opts) s
    = (Done (inl ids), s1) →
  ∃ body,
    putOrgSecret C pk host opts eValue s
      = putSecret C host (org_path opts) (org_payload pk opts eValue ids) s1
    ∧ st_log (putOrgSecret C pk host opts eValue s).2
      = st_log s
        ++ [EvGraphQL host (build_query (OrgName opts) (RepositoryNames opts));
            EvREST host "PUT" (org_path opts) (Some body)]
    ∧ get_field "visibility" body = Some (JString "selected")
    ∧ (has_field "selected_repository_ids" body ↔ ids ≠ [])
    ∧ (ids ≠ [] →
       get_field "selected_repository_ids" body = Some (JIntArray ids)).
Proof.
  intros Horg Hvis Hmap.
  pose proof (mapRepoNameToID_log C host (OrgName opts) (RepositoryNames opts) s)
    as Hl.
  rewrite Hmap in Hl. simpl in Hl. eexists.
  assert (putOrgSecret C pk host opts eValue s
          = putSecret C host (org_path opts) (org_payload pk opts eValue ids) s1)
    as Heq.
  { rewrite putOrgSecret_unfold, decide_True by done. by rewrite Hmap. }
  split; [exact Heq|]. rewrite Heq, putSecret_unfold. cbv zeta.
  destruct (REST C (st_world s1) host "PUT" _ _) as [w [r rerr]].
  cbn [snd st_log]. rewrite Hl, <- app_assoc.
  split; [reflexivity|]. split; [|split].
  - rewrite (marshal_visibility_value (org_payload pk opts eValue ids));
      simpl; by rewrite Hvis.
  - apply (marshal_repositories (org_payload pk opts eValue ids)).
  - apply (marshal_repositories_value (org_payload pk opts eValue ids)).
Qed.

Lemma putOrgSecret_selected_witness :
  ∃ body,
    putOrgSecret client_resolves pk0 "github.com" opts_selected "c2VjcmV0"
        (start client_resolves tt)
      = putSecret client_resolves "github.com" (org_path opts_selected)
          (org_payload pk0 opts_selected "c2VjcmV0" [10; 20]%Z)
          (@mkState client_resolves tt
             [EvGraphQL "github.com" (build_query "acme" ["a"; "b"])])
    ∧ st_log (putOrgSecret client_resolves pk0 "github.com" opts_selected "c2VjcmV0"
                (start client_resolves tt)).2
      = st_log (start client_resolves tt)
        ++ [EvGraphQL "github.com"
              (build_query (OrgName opts_selected) (RepositoryNames opts_selected));
            EvREST "github.com" "PUT" (org_path opts_selected) (Some body)]
    ∧ get_field "visibility" body = Some (JString "selected")
    ∧ (has_field "selected_repository_ids" body ↔ [10; 20]%Z ≠ [])
    ∧ ([10; 20]%Z ≠ [] →
       get_field "selected_repository_ids" body = Some (JIntArray [10; 20]%Z)).
Proof.
  apply (putOrgSecret_selected client_resolves pk0 "github.com" opts_selected
           "c2VjcmV0" (start client_resolves tt)).
  - discriminate.
  - reflexivity.
  - vm_compute. reflexivity.
Defined.

(** X20: when the lookup panics, [putOrgSecret] panics in the same way
    and has sent no PUT: the only client call made is the GraphQL
    query. *)
Theorem putOrgSecret_lookup_panics (C : Client) (pk : PubKey) (host : string)
    (opts : CreateOptions) (eValue : string) (s s1 : state C) (p : panic) :
  OrgName opts ≠ EmptyString →
  Visibility_opt opts = visSelected →
  mapRepoNameToID C host (OrgName opts) (RepositoryNames opts) s = (Panic p, s1) →
  putOrgSecret C pk host opts eValue s = (Panic p, s1)
  ∧ st_log s1 = st_log s
                ++ [EvGraphQL host (build_query (OrgName opts) (RepositoryNames opts))].
Proof.
  intros Horg Hvis Hmap.
  pose proof (mapRepoNameToID_log C host (OrgName opts) (RepositoryNames opts) s)
    as Hl.
  rewrite Hmap in Hl. split; [|exact Hl].
  rewrite putOrgSecret_unfold, decide_True by done. by rewrite Hmap.
Qed.

Lemma putOrgSecret_lookup_panics_witness :
  putOrgSecret client_partial pk0 "github.com" opts_selected "c2VjcmV0"
      (start client_partial tt)
    = (Panic NilPointerDereference,
       @mkState client_partial tt
         [EvGraphQL "github.com" (build_query "acme" ["a"; "b"])])
  ∧ [EvGraphQL "github.com" (build_query "acme" ["a"; "b"])]
    = st_log (start client_partial tt)
      ++ [EvGraphQL "github.com"
            (build_query (OrgName opts_selected) (RepositoryNames opts_selected))].
Proof.
  apply (putOrgSecret_lookup_panics client_partial pk0 "github.com" opts_selected
           "c2VjcmV0" (start client_partial tt)).
  - discriminate.
  - reflexivity.
  - vm_compute. reflexivity.
Defined.

(** X21: the message a user sees for a repository that does not exist:
    with an organization name and the visibility "selected", when the
    first NOT_FOUND entry of the error list carries a name,
    [putOrgSecret] returns an error whose text is "failed to look up IDs
    for repositories [NAMES]: could not find ORG/NAME". *)
Theorem putOrgSecret_not_found_text (C : Client) (pk : PubKey) (host : string)
    (opts : CreateOptions) (eValue : string) (s : state C)
    w data pre ge post text name rest :
  OrgName opts ≠ EmptyString →
  Visibility_opt opts = visSelected →
  GraphQL C (st_world s) host (build_query (OrgName opts) (RepositoryNames opts))
    = (w, (data, Some (GraphQLErrorResponse (pre ++ ge :: post) text))) →
  Forall (λ e, Type_ e ≠ "NOT_FOUND") pre →
  Type_ ge = "NOT_FOUND" →
  Path ge = name :: rest →
  ∃ e,
    (putOrgSecret C pk host opts eValue s).1 = Done (Some e)
    ∧ Error_string e
      = "failed to look up IDs for repositories " +:+ fmt_v (RepositoryNames opts)
        +:+ ": could not find " +:+ OrgName opts +:+ "/" +:+ name.
Proof.
  intros Horg Hvis HG Hpre Hge Hpath. eexists.
  rewrite putOrgSecret_unfold, decide_True by done.
  rewrite mapRepoNameToID_unfold. cbv zeta. rewrite HG.
  rewrite (scan_errors_first _ _ _ _ Hpre Hge), Hpath. split; reflexivity.
Qed.

Lemma putOrgSecret_not_found_text_witness :
  ∃ e,
    (putOrgSecret client_not_found pk0 "github.com" opts_selected "c2VjcmV0"
       (start client_not_found tt)).1 = Done (Some e)
    ∧ Error_string e
      = "failed to look up IDs for repositories "
        +:+ fmt_v (RepositoryNames opts_selected)
        +:+ ": could not find " +:+ OrgName opts_selected +:+ "/" +:+ "b".
Proof.
  apply (putOrgSecret_not_found_text client_not_found pk0 "github.com" opts_selected
           "c2VjcmV0" (start client_not_found tt)
           tt repos_a [forbidden "a"] (not_found "b") [not_found "c"]
           "GraphQL error: no access" "b" []).
  - discriminate.
  - reflexivity.
  - reflexivity.
  - repeat constructor. discriminate.
  - reflexivity.
  - reflexivity.
Defined.

Example putOrgSecret_not_found_message :
  (λ r, match r with Done (Some e) => Error_string e | _ => EmptyString end)
    (putOrgSecret client_not_found pk0 "github.com" opts_selected "c2VjcmV0"
       (start client_not_found tt)).1
  = "failed to look up IDs for repositories [a b]: could not find acme/b".
Proof. vm_compute. reflexivity. Qed.

(** X22: when the GraphQL call fails without a NOT_FOUND entry, the
    error of [putOrgSecret] keeps the whole chain: unwrapping it gives
    the error of the lookup, and unwrapping that gives the error of the
    call; its text is "failed to look up IDs for repositories [NAMES]:
    failed to look up repositories: " followed by the text of the
    call's error. *)
Theorem putOrgSecret_transport_chain (C : Client) (pk : PubKey) (host : string)
    (opts : CreateOptions) (eValue : string) (s : state C) w data a :
  OrgName opts ≠ EmptyString →
  Visibility_opt opts = visSelected →
  GraphQL C (st_world s) host (build_query (OrgName opts) (RepositoryNames opts))
    = (w, (data, Some a)) →
  (∀ errs text, a = GraphQLErrorResponse errs text →
                Forall (λ g, Type_ g ≠ "NOT_FOUND") errs) →
  ∃ e,
    (putOrgSecret C pk host opts eValue s).1 = Done (Some e)
    ∧ (Unwrap e ≫= Unwrap) = Some (ClientError a)
    ∧ Error_string e
      = "failed to look up IDs for repositories " +:+ fmt_v (RepositoryNames opts)
        +:+ ": failed to look up repositories: " +:+ api_error_string a.
Proof.
  intros Horg Hvis HG Hnf. eexists.
  rewrite putOrgSecret_unfold, decide_True by done.
  rewrite mapRepoNameToID_unfold. cbv zeta. rewrite HG.
  destruct a as [errs text|text].
  - rewrite (scan_errors_none _ _ (Hnf errs text eq_refl)).
    split; [reflexivity|]. split; reflexivity.
  - split; [reflexivity|]. split; reflexivity.
Qed.

Lemma putOrgSecret_transport_chain_witness :
  ∃ e,
    (putOrgSecret client_gql_down pk0 "github.com" opts_selected "c2VjcmV0"
       (start client_gql_down tt)).1 = Done (Some e)
    ∧ (Unwrap e ≫= Unwrap) = Some (ClientError (OtherClientError "connection refused"))
    ∧ Error_string e
      = "failed to look up IDs for repositories "
        +:+ fmt_v (RepositoryNames opts_selected)
        +:+ ": failed to look up repositories: "
        +:+ api_error_string (OtherClientError "connection refused").
Proof.
  apply (putOrgSecret_transport_chain client_gql_down pk0 "github.com" opts_selected
           "c2VjcmV0" (start client_gql_down tt) tt ∅).
  - discriminate.
  - reflexivity.
  - reflexivity.
  - intros errs text. discriminate.
Defined.

(** X23: in every case [putOrgSecret] makes one of three sequences of
    client calls: the PUT alone, the GraphQL query alone, or the query
    followed by the PUT.  So it sends at most one PUT, always as its
    last call, always on the given host and on
    orgs/ORG/actions/secrets/NAME, and never a GET. *)
Theorem putOrgSecret_calls (C : Client) (pk : PubKey) (host : string)
    (opts : CreateOptions) (eValue : string) (s : state C) :
  ∃ body,
    let query := EvGraphQL host
                   (build_query (OrgName opts) (RepositoryNames opts)) in
    let put := EvREST host "PUT" (org_path opts) (Some body) in
    st_log (putOrgSecret C pk host opts eValue s).2 = st_log s ++ [put]
    ∨ st_log (putOrgSecret C pk host opts eValue s).2 = st_log s ++ [query]
    ∨ st_log (putOrgSecret C pk host opts eValue s).2 = st_log s ++ [query; put].
Proof.
  rewrite putOrgSecret_unfold. case_decide as Hg.
  - pose proof (mapRepoNameToID_log C host (OrgName opts) (RepositoryNames opts) s)
      as Hl.
    destruct (mapRepoNameToID C host _ _ s) as [[[ids|err]|p] s1]; simpl in Hl.
    + eexists. right. right. rewrite putSecret_unfold. cbv zeta.
      destruct (REST C (st_world s1) host "PUT" _ _) as [w [r rerr]].
      cbn [snd st_log]. rewrite Hl, <- app_assoc. reflexivity.
    + exists []. right. left. exact Hl.
    + exists []. right. left. exact Hl.
  - eexists. left. rewrite putSecret_unfold. cbv zeta.
    destruct (REST C (st_world s) host "PUT" _ _) as [w [r rerr]]. reflexivity.
Qed.

(** X24: the errors of [putOrgSecret] are of two kinds only.  Either
    the error is the one its PUT call returned, as it is: the call on
    orgs/ORG/actions/secrets/NAME with the marshalled payload, made
    after a lookup that returned a list or without a lookup.  Or, with
    an organization name and the visibility "selected", the lookup
    returned an error and the result wraps that error, with the
    requested names in its text. *)
Theorem putOrgSecret_errors (C : Client) (pk : PubKey) (host : string)
    (opts : CreateOptions) (eValue : string) (s : state C) (e : error) :
  (putOrgSecret C pk host opts eValue s).1 = Done (Some e) →
  (∃ ids s1 w r a,
     ((OrgName opts ≠ EmptyString ∧ Visibility_opt opts = visSelected
       ∧ mapRepoNameToID C host (OrgName opts) (RepositoryNames opts) s
         = (Done (inl ids), s1))
      ∨ (¬ (OrgName opts ≠ EmptyString ∧ Visibility_opt opts = visSelected)
         ∧ ids = [] ∧ s1 = s))
     ∧ REST C (st_world s1) host "PUT" (org_path opts)
            (Some (json_Marshal (org_payload pk opts eValue ids)).1)
       = (w, (r, Some a))
     ∧ e = ClientError a)
  ∨ (∃ cause s1,
       OrgName opts ≠ EmptyString
       ∧ Visibility_opt opts = visSelected
       ∧ mapRepoNameToID C host (OrgName opts) (RepositoryNames opts) s
         = (Done (inr cause), s1)
       ∧ e = wrapError ("failed to look up IDs for repositories "
                        +:+ fmt_v (RepositoryNames opts) +:+ ": "
                        +:+ Error_string cause) cause).
Proof.
  rewrite putOrgSecret_unfold. case_decide as Hg.
  - destruct (mapRepoNameToID C host _ _ s) as [[[ids|err]|p] s1] eqn:Hm.
    + rewrite putSecret_unfold. cbv zeta.
      destruct (REST C (st_world s1) host "PUT" _ _) as [w [r [a|]]] eqn:HR;
        [|done].
      intros [= <-]. left. exists ids, s1, w, r, a.
      split; [left; by destruct Hg|]. by split.
    + intros [= <-]. right. exists err, s1. by destruct Hg.
    + done.
  - rewrite putSecret_unfold. cbv zeta.
    destruct (REST C (st_world s) host "PUT" _ _) as [w [r [a|]]] eqn:HR; [|done].
    intros [= <-]. left. exists [], s, w, r, a.
    split; [right; done|]. by split.
Qed.

Lemma putOrgSecret_errors_witness :
  (∃ ids s1 w r a,
     ((OrgName opts_selected ≠ EmptyString
       ∧ Visibility_opt opts_selected = visSelected
       ∧ mapRepoNameToID client_put_fails "github.com" (OrgName opts_selected)
           (RepositoryNames opts_selected) (start client_put_fails tt)
         = (Done (inl ids), s1))
      ∨ (¬ (OrgName opts_selected ≠ EmptyString
            ∧ Visibility_opt opts_selected = visSelected)
         ∧ ids = [] ∧ s1 = start client_put_fails tt))
     ∧ REST client_put_fails (st_world s1) "github.com" "PUT"
            (org_path opts_selected)
            (Some (json_Marshal (org_payload pk0 opts_selected "c2VjcmV0" ids)).1)
       = (w, (r, Some a))
     ∧ ClientError (OtherClientError "HTTP 403") = ClientError a)
  ∨ (∃ cause s1,
       OrgName opts_selected ≠ EmptyString
       ∧ Visibility_opt opts_selected = visSelected
       ∧ mapRepoNameToID client_put_fails "github.com" (OrgName opts_selected)
           (RepositoryNames opts_selected) (start client_put_fails tt)
         = (Done (inr cause), s1)
       ∧ ClientError (OtherClientError "HTTP 403")
         = wrapError ("failed to look up IDs for repositories "
                      +:+ fmt_v (RepositoryNames opts_selected) +:+ ": "
                      +:+ Error_string cause) cause).
Proof.
  apply (putOrgSecret_errors client_put_fails pk0 "github.com" opts_selected
           "c2VjcmV0" (start client_put_fails tt)).
  vm_compute. reflexivity.
Defined.

(** X25: of the public key, [putOrgSecret] and [putRepoSecret] use the
    identifier only: two keys with the same [ID] give the same calls
    and the same result, so the key bytes and the encoded key are never
    sent. *)
Theorem put_uses_key_ID_only (C : Client) (pk pk' : PubKey) (s : state C)
    (eValue : string) :
  ID pk = ID pk' →
  (∀ host opts,
     putOrgSecret C pk host opts eValue s = putOrgSecret C pk' host opts eValue s)
  ∧ (∀ r secretName,
       putRepoSecret C pk r secretName eValue s
       = putRepoSecret C pk' r secretName eValue s).
Proof.
  intros Hid. split.
  - intros host opts. rewrite !putOrgSecret_unfold. unfold org_payload.
    by rewrite Hid.
  - intros r secretName. unfold putRepoSecret. by rewrite Hid.
Qed.

Lemma put_uses_key_ID_only_witness :
  putOrgSecret client_resolves pk0 "github.com" opts_selected "c2VjcmV0"
      (start client_resolves tt)
    = putOrgSecret client_resolves pk1 "github.com" opts_selected "c2VjcmV0"
        (start client_resolves tt)
  ∧ putRepoSecret client_resolves pk0 repo0 "TOKEN" "c2VjcmV0"
      (start client_resolves tt)
    = putRepoSecret client_resolves pk1 repo0 "TOKEN" "c2VjcmV0"
        (start client_resolves tt).
Proof.
  pose proof (put_uses_key_ID_only client_resolves pk0 pk1
                (start client_resolves tt) "c2VjcmV0" eq_refl) as [H1 H2].
  split; [apply H1 | apply H2].
Defined.

(** X26: [putRepoSecret] makes one client call, the PUT on
    repos/FULLNAME/actions/secrets/NAME on the host of the repository,
    whose body is exactly the object of [encrypted_value] and [key_id];
    it never panics and returns the error of that call, not wrapped,
    or none. *)
Theorem putRepoSecret_request (C : Client) (pk : PubKey) (r : repo)
    (secretName eValue : string) (s : state C) :
  let path := "repos/" +:+ FullName r +:+ "/actions/secrets/" +:+ secretName in
  let body := Some [("encrypted_value", JString eValue);
                    ("key_id", JString (ID pk))] in
  st_log (putRepoSecret C pk r secretName eValue s).2
    = st_log s ++ [EvREST (RepoHost r) "PUT" path body]
  ∧ (putRepoSecret C pk r secretName eValue s).1
    = Done (ClientError <$> (REST C (st_world s) (RepoHost r) "PUT" path body).2.2).
Proof.
  cbv zeta. unfold putRepoSecret. rewrite putSecret_unfold. cbv zeta.
  cbn [json_Marshal fst EncryptedValue Visibility Repositories KeyID].
  rewrite !decide_True by done. cbn [app].
  by destruct (REST C (st_world s) (RepoHost r) "PUT" _ _) as [w [res rerr]].
Qed.

(** X27: with the visibility "selected" and no repository name, the
    lookup is still made, with the empty selection; when it reports no
    error the PUT follows, and its body has the visibility "selected"
    and no [selected_repository_ids]. *)
Theorem putOrgSecret_selected_no_names (C : Client) (pk : PubKey) (host : string)
    (opts : CreateOptions) (eValue : string) (s : state C) w data :
  OrgName opts ≠ EmptyString →
  Visibility_opt opts = visSelected →
  RepositoryNames opts = [] →
  GraphQL C (st_world s) host "query MapRepositoryNames {  }" = (w, (data, None)) →
  ∃ body,
    st_log (putOrgSecret C pk host opts eValue s).2
      = st_log s ++ [EvGraphQL host "query MapRepositoryNames {  }";
                     EvREST host "PUT" (org_path opts) (Some body)]
    ∧ get_field "visibility" body = Some (JString "selected")
    ∧ ¬ has_field "selected_repository_ids" body.
Proof.
  intros Horg Hvis Hnames HG. eexists.
  rewrite putOrgSecret_unfold, decide_True by done.
  rewrite mapRepoNameToID_unfold, Hnames. cbv zeta.
  change (build_query (OrgName opts) []) with "query MapRepositoryNames {  }".
  rewrite HG. cbn [collect_ids]. rewrite putSecret_unfold. cbv zeta.
  cbn [st_world st_log].
  destruct (REST C w host "PUT" _ _) as [w' [r rerr]].
  cbn [snd st_log]. rewrite <- app_assoc.
  split; [reflexivity|]. split.
  - rewrite (marshal_visibility_value (org_payload pk opts eValue []));
      simpl; by rewrite Hvis.
  - rewrite (marshal_repositories (org_payload pk opts eValue [])). simpl. tauto.
Qed.

Lemma putOrgSecret_selected_no_names_witness :
  ∃ body,
    st_log (putOrgSecret client_resolves pk0 "github.com" opts_selected_none
              "c2VjcmV0" (start client_resolves tt)).2
      = st_log (start client_resolves tt)
        ++ [EvGraphQL "github.com" "query MapRepositoryNames {  }";
            EvREST "github.com" "PUT" (org_path opts_selected_none) (Some body)]
    ∧ get_field "visibility" body = Some (JString "selected")
    ∧ ¬ has_field "selected_repository_ids" body.
Proof.
  apply (putOrgSecret_selected_no_names client_resolves pk0 "github.com"
           opts_selected_none "c2VjcmV0" (start client_resolves tt) tt repos_ab).
  - discriminate.
  - reflexivity.
  - reflexivity.
  - reflexivity.
Defined.
